(** * Agentic memory: a shallow embedding of [storage.ts] and of the
    [AgenticMemory] class, and the properties of the consolidation
    pipeline that hold (or fail) on that code.

    The TypeScript program is a sequence of awaited calls to three
    collaborators: the Qdrant client, the embedding model and the
    reasoning model.  It is embedded as a state-and-exception monad over
    a [World] that holds the Qdrant collection and the log of every
    collaborator request issued so far.  Whatever the program cannot
    control (whether a request fails, what the clock reads, which UUID
    is drawn, what the models answer) is read from an [Env]. *)

From Stdlib Require Import QArith.
From stdpp Require Import gmap strings list fin_maps pretty.

Local Open Scope string_scope.
Local Open Scope list_scope.
Local Open Scope Z_scope.

(** ** Data model ([storage.ts], "Core interfaces") *)

(** [number[]]: an embedding vector. *)
Definition Vector := list Q.

Record MemoryMetadata := {
  userId : string;
  timestamp : Z;
}.

Record Memory := {
  mem_id : string;
  mem_content : string;
  mem_metadata : MemoryMetadata;
  mem_vector : option Vector;
  mem_createdAt : Z;
  mem_updatedAt : Z;
}.

(** [Partial<Memory>], the argument of [updateMemory]. *)
Record PartialMemory := {
  upd_id : option string;
  upd_content : option string;
  upd_metadata : option MemoryMetadata;
  upd_vector : option Vector;
  upd_createdAt : option Z;
  upd_updatedAt : option Z;
}.

(** [Omit<Memory, 'id' | 'createdAt' | 'updatedAt'>], the argument of
    [addMemory]. *)
Record NewMemory := {
  new_vector : option Vector;
  new_content : string;
  new_metadata : MemoryMetadata;
}.

Record MemorySearchParams := {
  sp_userId : string;
  sp_query : option string;
  sp_vector : option Vector;
  sp_limit : option nat;
  sp_threshold : option Q;
}.

Inductive ActionType := ADD | UPDATE | DELETE | UNCHANGED.

Record MemoryAction := {
  act_type : ActionType;
  act_id : option string;
  act_text : string;
  act_oldFact : option string;
}.

(** JavaScript truthiness of an optional string: [undefined] and the
    empty string are falsy. *)
Definition truthy (s : option string) : bool :=
  match s with
  | Some s => negb (bool_decide (s = ""))
  | None => false
  end.

(** ** The Qdrant collection *)

(** The payload object of a point.  [addMemory] writes the first four
    keys of every point; the key [vector] exists only once
    [updateMemory] has written it. *)
Record Payload := {
  pl_content : string;
  pl_metadata : MemoryMetadata;
  pl_createdAt : Z;
  pl_updatedAt : Z;
  pl_vector : option Vector;
}.

(** A stored point: the indexed vector, which similarity search
    compares against, and the payload. *)
Record Point := {
  pt_vector : Vector;
  pt_payload : Payload;
}.

(** The object [updateMemory] hands to [setPayload]. *)
Record PayloadPatch := {
  pp_updatedAt : Z;
  pp_content : option string;
  pp_vector : option Vector;
  pp_metadata : option MemoryMetadata;
}.

(** What [retrieve], [search] and [scroll] hand back.  The program
    never asks for [with_vector], so the client leaves [vector]
    undefined. *)
Record Record_ := {
  rec_id : string;
  rec_payload : Payload;
  rec_vector : option Vector;
}.

(** Requests to the collaborators, as the program issues them. *)
Inductive Event :=
| EvEmbed (text : string)
| EvUpsert (i : string) (v : Vector) (p : Payload)
| EvSetPayload (i : string) (p : PayloadPatch)
| EvDelete (i : string)
| EvRetrieve (i : string)
| EvSearch (user : string) (v : Vector) (limit : nat) (threshold : Q)
| EvScroll (user : string) (startDate endDate : Z) (limit : nat)
| EvExtractFacts (input : string)
| EvConsolidate (memories : list (string * string)) (facts : list string).

Record World := {
  store : gmap string Point;
  trace : list Event;
  ticks : nat;
  uuids : nat;
}.

(** Everything outside the program.  [fails h e] tells whether request
    [e], issued after the requests [h], is answered by an error;
    [clock n] is the [n]-th reading of [Date.now()], [uuid n] the
    [n]-th draw of [crypto.randomUUID()]. *)
Record Env := {
  embedding : string → Vector;
  score : Vector → Vector → Q;
  fails : list Event → Event → bool;
  clock : nat → Z;
  uuid : nat → string;
  llm_facts : string → list string;
  llm_actions : list (string * string) → list string → list MemoryAction;
}.

(** ** Exceptions and the monad of awaited calls *)

Inductive Exn :=
| Collab (e : Event)
| Thrown (msg : string)
| Wrapped (msg : string) (cause : Exn).

Inductive Res (A : Type) :=
| Ok (a : A)
| Err (e : Exn).
Arguments Ok {A} a.
Arguments Err {A} e.

Definition M (A : Type) : Type := World → Res A * World.

Definition ret {A} (a : A) : M A := λ w, (Ok a, w).

Definition bind {A B} (m : M A) (k : A → M B) : M B :=
  λ w, match m w with
       | (Ok a, w') => k a w'
       | (Err e, w') => (Err e, w')
       end.

Definition throw {A} (e : Exn) : M A := λ w, (Err e, w).

(** [try { m } catch (error) { h error }]. *)
Definition try_catch {A} (m : M A) (h : Exn → M A) : M A :=
  λ w, match m w with
       | (Ok a, w') => (Ok a, w')
       | (Err e, w') => h e w'
       end.

Declare Scope m_scope.
Delimit Scope m_scope with M.
Notation "'let*' x ':=' m 'in' k" := (bind m (λ x, k))
  (at level 10, x name, m at level 100, k at level 200) : m_scope.
Notation "'await' m 'in' k" := (bind m (λ _, k))
  (at level 10, m at level 100, k at level 200) : m_scope.
Local Open Scope m_scope.

Definition is_ok {A} (r : Res A) : bool :=
  match r with Ok _ => true | Err _ => false end.

(** The list a call returned; an exception returns nothing. *)
Definition returned {A} (r : Res (list A)) : list A :=
  match r with Ok l => l | Err _ => [] end.

Definition record_event (ev : Event) (w : World) : World :=
  {| store := store w; trace := trace w ++ [ev];
     ticks := ticks w; uuids := uuids w |}.

Definition set_store (s : gmap string Point) (w : World) : World :=
  {| store := s; trace := trace w; ticks := ticks w; uuids := uuids w |}.

(** Issue one request: it is logged, then the environment decides
    whether it is answered or fails.  A request that fails has had no
    effect on the collection. *)
Definition request (E : Env) (ev : Event) : M unit :=
  λ w, if fails E (trace w) ev
       then (Err (Collab ev), record_event ev w)
       else (Ok tt, record_event ev w).

Definition get_store : M (gmap string Point) := λ w, (Ok (store w), w).

Definition modify_store (f : gmap string Point → gmap string Point) : M unit :=
  λ w, (Ok tt, set_store (f (store w)) w).

(** [Date.now()] *)
Definition Date_now (E : Env) : M Z :=
  λ w, (Ok (clock E (ticks w)),
        {| store := store w; trace := trace w;
           ticks := S (ticks w); uuids := uuids w |}).

(** [crypto.randomUUID()] *)
Definition randomUUID (E : Env) : M string :=
  λ w, (Ok (uuid E (uuids w)),
        {| store := store w; trace := trace w;
           ticks := ticks w; uuids := S (uuids w) |}).

(** ** The Qdrant client, as far as the program calls it *)

Definition apply_patch (p : PayloadPatch) (pt : Point) : Point :=
  let old := pt_payload pt in
  {| pt_vector := pt_vector pt;
     pt_payload :=
       {| pl_content := default (pl_content old) (pp_content p);
          pl_metadata := default (pl_metadata old) (pp_metadata p);
          pl_createdAt := pl_createdAt old;
          pl_updatedAt := pp_updatedAt p;
          pl_vector := match pp_vector p with
                       | Some v => Some v
                       | None => pl_vector old
                       end |} |}.

Definition to_record (ip : string * Point) : Record_ :=
  {| rec_id := ip.1; rec_payload := pt_payload ip.2; rec_vector := None |}.

(** [must: [{ key: 'metadata.userId', match: { value: user } }]] *)
Definition match_user (user : string) (ip : string * Point) : bool :=
  bool_decide (userId (pl_metadata (pt_payload ip.2)) = user).

(** [{ key: 'metadata.timestamp', range: { gte, lte } }] *)
Definition match_range (startDate endDate : Z) (ip : string * Point) : bool :=
  let t := timestamp (pl_metadata (pt_payload ip.2)) in
  (startDate <=? t) && (t <=? endDate).

Definition above_threshold (E : Env) (v : Vector) (threshold : Q)
    (ip : string * Point) : bool :=
  Qle_bool threshold (score E v (pt_vector ip.2)).

(** Ranking by decreasing score. *)
Fixpoint insert_ranked (E : Env) (v : Vector) (x : string * Point)
    (l : list (string * Point)) : list (string * Point) :=
  match l with
  | [] => [x]
  | y :: l' =>
      if Qle_bool (score E v (pt_vector y.2)) (score E v (pt_vector x.2))
      then x :: y :: l'
      else y :: insert_ranked E v x l'
  end.

Definition rank (E : Env) (v : Vector) (l : list (string * Point))
    : list (string * Point) :=
  foldr (insert_ranked E v) [] l.

Definition qdrant_search (E : Env) (s : gmap string Point) (user : string)
    (v : Vector) (limit : nat) (threshold : Q) : list Record_ :=
  to_record <$>
    take limit
      (rank E v
         (filter (λ ip, match_user user ip && above_threshold E v threshold ip)
                 (map_to_list s))).

Definition qdrant_scroll (s : gmap string Point) (user : string)
    (startDate endDate : Z) (limit : nat) : list Record_ :=
  to_record <$>
    take limit
      (filter (λ ip, match_user user ip && match_range startDate endDate ip)
              (map_to_list s)).

Definition qdrant_retrieve (s : gmap string Point) (i : string) : list Record_ :=
  match s !! i with
  | Some pt => [to_record (i, pt)]
  | None => []
  end.

Module client.

(** [client.upsert(collection, { points: [{ id, vector, payload }] })] *)
Definition upsert (E : Env) (i : string) (v : Vector) (p : Payload) : M unit :=
  await request E (EvUpsert i v p) in
  modify_store (λ s, <[i := {| pt_vector := v; pt_payload := p |}]> s).

(** [client.setPayload(collection, { points: [id], payload })]: the
    given keys are written into the payload of the point; the
    indexed vector is not a payload key and stays as it is.  No point
    is created for an unknown id; a store that answers such a request
    with an error is an [Env] whose [fails] says so. *)
Definition setPayload (E : Env) (i : string) (p : PayloadPatch) : M unit :=
  await request E (EvSetPayload i p) in
  modify_store (λ s, alter (apply_patch p) i s).

(** [client.delete(collection, { points: [id] })] *)
Definition delete (E : Env) (i : string) : M unit :=
  await request E (EvDelete i) in
  modify_store (λ s, base.delete i s).

(** [client.retrieve(collection, { ids: [id] })] *)
Definition retrieve (E : Env) (i : string) : M (list Record_) :=
  await request E (EvRetrieve i) in
  let* s := get_store in
  ret (qdrant_retrieve s i).

(** [client.search(collection, { filter, limit, vector, score_threshold })] *)
Definition search (E : Env) (user : string) (v : Vector) (limit : nat)
    (threshold : Q) : M (list Record_) :=
  await request E (EvSearch user v limit threshold) in
  let* s := get_store in
  ret (qdrant_search E s user v limit threshold).

(** [client.scroll(collection, { filter, limit })] *)
Definition scroll (E : Env) (user : string) (startDate endDate : Z)
    (limit : nat) : M (list Record_) :=
  await request E (EvScroll user startDate endDate limit) in
  let* s := get_store in
  ret (qdrant_scroll s user startDate endDate limit).

End client.

(** ** [class MemoryStorage] *)

Module MemoryStorage.

Definition to_memory (r : Record_) : Memory :=
  {| mem_id := rec_id r;
     mem_content := pl_content (rec_payload r);
     mem_metadata := pl_metadata (rec_payload r);
     mem_vector := rec_vector r;
     mem_createdAt := pl_createdAt (rec_payload r);
     mem_updatedAt := pl_updatedAt (rec_payload r) |}.

(** [embedQuery(query)] *)
Definition embedQuery (E : Env) (query : string) : M Vector :=
  try_catch
    (await request E (EvEmbed query) in
     ret (embedding E query))
    (λ error, throw (Wrapped "Failed to generate embedding" error)).

(** [addMemory(memory)] *)
Definition addMemory (E : Env) (memory : NewMemory) : M string :=
  try_catch
    (let* i := randomUUID E in
     let* now := Date_now E in
     let* v := match new_vector memory with
               | Some v => ret v
               | None => embedQuery E (new_content memory)
               end in
     await client.upsert E i v
             {| pl_content := new_content memory;
                pl_metadata := new_metadata memory;
                pl_createdAt := now;
                pl_updatedAt := now;
                pl_vector := None |} in
     ret i)
    (λ error, throw (Wrapped "Failed to add memory" error)).

(** [updateMemory(id, updates)] *)
Definition updateMemory (E : Env) (i : string) (updates : PartialMemory)
    : M unit :=
  try_catch
    (let* now := Date_now E in
     let* pv :=
       (if truthy (upd_content updates)
        then let* v := embedQuery E (default "" (upd_content updates)) in
             ret (upd_content updates, Some v)
        else ret (None, None)) in
     client.setPayload E i
       {| pp_updatedAt := now;
          pp_content := pv.1;
          pp_vector := pv.2;
          pp_metadata := upd_metadata updates |})
    (λ error, throw (Wrapped "Failed to update memory" error)).

(** [deleteMemory(id)] *)
Definition deleteMemory (E : Env) (i : string) : M unit :=
  try_catch
    (client.delete E i)
    (λ error, throw (Wrapped "Failed to delete memory" error)).

(** [getMemory(id)] *)
Definition getMemory (E : Env) (i : string) : M (option Memory) :=
  try_catch
    (let* result := client.retrieve E i in
     match result with
     | [] => ret None
     | point :: _ => ret (Some (to_memory point))
     end)
    (λ error, ret None).

(** [searchMemories(params)] *)
Definition searchMemories (E : Env) (params : MemorySearchParams)
    : M (list Memory) :=
  try_catch
    (let limit := default 10%nat (sp_limit params) in
     let threshold := default (3 # 10)%Q (sp_threshold params) in
     if negb (bool_decide (is_Some (sp_vector params)))
        && negb (truthy (sp_query params))
     then throw (Thrown "Either vector or query must be provided")
     else
       let* v := match sp_vector params with
                 | Some v => ret v
                 | None => embedQuery E (default "" (sp_query params))
                 end in
       let* result := client.search E (sp_userId params) v limit threshold in
       ret (to_memory <$> result))
    (λ error, throw (Wrapped "Failed to search memories" error)).

(** [getMemoriesByDateRange(userId, startDate, endDate, limit = 50)] *)
Definition getMemoriesByDateRange (E : Env) (user : string)
    (startDate endDate : Z) (limit : option nat) : M (list Memory) :=
  try_catch
    (let* result :=
       client.scroll E user startDate endDate (default 50%nat limit) in
     ret (to_memory <$> result))
    (λ error, throw (Wrapped "Failed to get memories by date range" error)).

End MemoryStorage.

(** ** [class AgenticMemory] *)

Module AgenticMemory.

(** [findIndex]: the first index whose element satisfies [p];
    [None] stands for JavaScript's [-1]. *)
Fixpoint findIndex {A} (p : A → bool) (l : list A) : option nat :=
  match l with
  | [] => None
  | x :: l' => if p x then Some 0%nat else S <$> findIndex p l'
  end.

(** [self.filter((x, index, self) => p x index self)]: the callback
    sees the element, its index and the whole array. *)
Fixpoint filter_from {A} (p : A → nat → bool) (index : nat) (l : list A)
    : list A :=
  match l with
  | [] => []
  | x :: l' =>
      if p x index then x :: filter_from p (S index) l'
      else filter_from p (S index) l'
  end.

(** The callback of the "Remove duplicates" filter:
    [index === self.findIndex((m) => m.id === memory.id)]. *)
Definition first_of (self : list Memory) (memory : Memory) (index : nat)
    : bool :=
  bool_decide
    (Some index =
     findIndex (λ m, bool_decide (mem_id m = mem_id memory)) self).

(** The "Remove duplicates" filter of [findSimilarMemories]. *)
Definition removeDuplicates (allMemories : list Memory) : list Memory :=
  filter_from (first_of allMemories) 0%nat allMemories.

(** The object literal [{ content }]. *)
Definition content_update (content : string) : PartialMemory :=
  {| upd_id := None; upd_content := Some content;
     upd_metadata := None; upd_vector := None;
     upd_createdAt := None; upd_updatedAt := None |}.

(** [extractFacts(input)] *)
Definition extractFacts (E : Env) (input : string) : M (list string) :=
  await request E (EvExtractFacts input) in
  ret (llm_facts E input).

(** The [for (const fact of facts)] loop of [findSimilarMemories];
    [allMemories] is the array the results are pushed onto. *)
Fixpoint findSimilarMemories_loop (E : Env) (facts : list string)
    (user : string) (allMemories : list Memory) : M (list Memory) :=
  match facts with
  | [] => ret allMemories
  | fact :: facts' =>
      let* embedding := MemoryStorage.embedQuery E fact in
      let* similarMemories :=
        MemoryStorage.searchMemories E
          {| sp_userId := user; sp_query := None;
             sp_vector := Some embedding;
             sp_limit := Some 5%nat; sp_threshold := Some (5 # 10)%Q |} in
      findSimilarMemories_loop E facts' user (allMemories ++ similarMemories)
  end.

(** [findSimilarMemories(facts, userId)] *)
Definition findSimilarMemories (E : Env) (facts : list string)
    (user : string) : M (list Memory) :=
  let* allMemories := findSimilarMemories_loop E facts user [] in
  ret (removeDuplicates allMemories).

(** [generateConsolidationActions(oldMemories, newFacts)] *)
Definition generateConsolidationActions (E : Env) (oldMemories : list Memory)
    (newFacts : list string) : M (list MemoryAction) :=
  let formattedMemories :=
    (λ memory, (mem_id memory, mem_content memory)) <$> oldMemories in
  await request E (EvConsolidate formattedMemories newFacts) in
  ret (llm_actions E formattedMemories newFacts).

(** One pass through the [switch] of [applyMemoryActions]. *)
Definition applyMemoryAction (E : Env) (action : MemoryAction)
    (factEmbeddings : gmap string Vector) (context : MemoryMetadata)
    : M unit :=
  match act_type action with
  | ADD =>
      let v := factEmbeddings !! act_text action in
      let* now := Date_now E in
      await MemoryStorage.addMemory E
              {| new_vector := v;
                 new_content := act_text action;
                 new_metadata :=
                   {| userId := userId context; timestamp := now |} |} in
      ret tt
  | UPDATE =>
      if truthy (act_id action)
      then MemoryStorage.updateMemory E (default "" (act_id action))
             (content_update (act_text action))
      else ret tt
  | DELETE =>
      if truthy (act_id action)
      then MemoryStorage.deleteMemory E (default "" (act_id action))
      else ret tt
  | UNCHANGED => ret tt
  end.

(** [applyMemoryActions(actions, factEmbeddings, context)] *)
Fixpoint applyMemoryActions (E : Env) (actions : list MemoryAction)
    (factEmbeddings : gmap string Vector) (context : MemoryMetadata)
    : M unit :=
  match actions with
  | [] => ret tt
  | action :: actions' =>
      await applyMemoryAction E action factEmbeddings context in
      applyMemoryActions E actions' factEmbeddings context
  end.

(** Step 2 of [add]: the loop filling the [factEmbeddings] map. *)
Fixpoint embedFacts (E : Env) (facts : list string)
    (factEmbeddings : gmap string Vector) : M (gmap string Vector) :=
  match facts with
  | [] => ret factEmbeddings
  | fact :: facts' =>
      let* embedding := MemoryStorage.embedQuery E fact in
      embedFacts E facts' (<[fact := embedding]> factEmbeddings)
  end.

(** [add(input, context)] *)
Definition add (E : Env) (input : string) (context : MemoryMetadata)
    : M unit :=
  let* facts := extractFacts E input in
  let* factEmbeddings := embedFacts E facts ∅ in
  let* oldMemories := findSimilarMemories E facts (userId context) in
  let* actions := generateConsolidationActions E oldMemories facts in
  applyMemoryActions E actions factEmbeddings context.

(** [search(query, context)] *)
Definition search (E : Env) (query : string) (context : MemoryMetadata)
    : M (list Memory) :=
  MemoryStorage.searchMemories E
    {| sp_userId := userId context; sp_query := Some query;
       sp_vector := None; sp_limit := Some 10%nat;
       sp_threshold := Some (3 # 10)%Q |}.

(** [get(id)] *)
Definition get (E : Env) (i : string) : M (option Memory) :=
  MemoryStorage.getMemory E i.

(** [update(id, content)] *)
Definition update (E : Env) (i : string) (content : string) : M unit :=
  MemoryStorage.updateMemory E i (content_update content).

(** [delete(id)] *)
Definition delete (E : Env) (i : string) : M unit :=
  MemoryStorage.deleteMemory E i.

(** [getMemoriesByDateRange(userId, startDate, endDate, limit = 50)] *)
Definition getMemoriesByDateRange (E : Env) (user : string)
    (startDate endDate : Z) (limit : option nat) : M (list Memory) :=
  MemoryStorage.getMemoriesByDateRange E user startDate endDate limit.

End AgenticMemory.

(** ** Concrete environments and worlds, for evaluating the code *)

Module Sample.

(** A collaborator that never fails, with the given model answers. *)
Definition env (facts : list string) (actions : list MemoryAction)
    (failing : Event → bool) : Env :=
  {| embedding := λ text, [inject_Z (Z.of_nat (String.length text))];
     score := λ _ _, 1%Q;
     fails := λ _ ev, failing ev;
     clock := λ n, 1000 + Z.of_nat n;
     uuid := λ n, String.append "uuid-" (pretty n);
     llm_facts := λ _, facts;
     llm_actions := λ _ _, actions |}.

Definition never (ev : Event) : bool := false.

Definition retrieve_fails (ev : Event) : bool :=
  match ev with EvRetrieve _ => true | _ => false end.

Definition delete_fails (ev : Event) : bool :=
  match ev with EvDelete _ => true | _ => false end.

Definition consolidate_fails (ev : Event) : bool :=
  match ev with EvConsolidate _ _ => true | _ => false end.

Definition point (user content : string) (t : Z) : Point :=
  {| pt_vector := [inject_Z (Z.of_nat (String.length content))];
     pt_payload :=
       {| pl_content := content;
          pl_metadata := {| userId := user; timestamp := t |};
          pl_createdAt := t; pl_updatedAt := t; pl_vector := None |} |}.

Definition world (s : gmap string Point) : World :=
  {| store := s; trace := []; ticks := 0; uuids := 0 |}.

Definition alice : MemoryMetadata := {| userId := "alice"; timestamp := 7 |}.

(** One memory, owned by bob. *)
Definition bobs : gmap string Point :=
  {[ "m1" := point "bob" "bob likes tea" 500 ]}.

(** One memory of bob and one of alice. *)
Definition both : gmap string Point :=
  <[ "m2" := point "alice" "likes tea" 600 ]> bobs.

(** One memory, owned by alice. *)
Definition alices : gmap string Point :=
  {[ "m1" := point "alice" "likes tea" 500 ]}.

Definition action (t : ActionType) (i : option string) (text : string)
    : MemoryAction :=
  {| act_type := t; act_id := i; act_text := text; act_oldFact := None |}.

End Sample.

(** ** Vocabulary of the properties *)

(** The requests a computation issued, and the stamp of ownership. *)
Definition events_of {A} (m : M A) (w : World) : list Event :=
  drop (length (trace w)) (trace (m w).2).

Definition owner (pt : Point) : string := userId (pl_metadata (pt_payload pt)).

Definition memory_of (i : string) (pt : Point) : Memory :=
  MemoryStorage.to_memory (to_record (i, pt)).

Definition never_fails (E : Env) : Prop := ∀ h ev, fails E h ev = false.

(** The operations of the public surface that read or change stored
    memories one at a time or by query, run for the user of [context]. *)
Inductive Operation :=
| OpSearch (query : string)
| OpListByTimeRange (startDate endDate : Z) (limit : option nat)
| OpGet (i : string)
| OpUpdate (i content : string)
| OpDelete (i : string).

Definition perform (E : Env) (context : MemoryMetadata) (op : Operation)
    : M (list Memory) :=
  match op with
  | OpSearch query => AgenticMemory.search E query context
  | OpListByTimeRange startDate endDate limit =>
      AgenticMemory.getMemoriesByDateRange E (userId context)
        startDate endDate limit
  | OpGet i =>
      let* r := AgenticMemory.get E i in
      ret (option_list r)
  | OpUpdate i content =>
      await AgenticMemory.update E i content in
      ret []
  | OpDelete i =>
      await AgenticMemory.delete E i in
      ret []
  end.

Definition user_scoped (op : Operation) : bool :=
  match op with
  | OpSearch _ | OpListByTimeRange _ _ _ => true
  | _ => false
  end.

(** An operation run for [context]'s user neither returns nor touches
    a memory of user [B]. *)
Definition isolated (E : Env) (context : MemoryMetadata) (B : string)
    (op : Operation) (w : World) : Prop :=
  Forall (λ m, userId (mem_metadata m) ≠ B)
    (returned (perform E context op w).1)
  ∧ ∀ i pt, store w !! i = Some pt → owner pt = B →
            store (perform E context op w).2 !! i = Some pt.

(** [get] answers null exactly when no memory has the identifier. *)
Definition absent_iff_missing (E : Env) (i : string) (w : World) : Prop :=
  (AgenticMemory.get E i w).1 = Ok None ↔ store w !! i = None.

(** The resolver's answer has one action per fact, in the facts' order. *)
Definition one_action_per_fact (E : Env) (candidates : list Memory)
    (facts : list string) (w : World) : Prop :=
  facts ≠ [] →
  ∀ actions w',
    AgenticMemory.generateConsolidationActions E candidates facts w
      = (Ok actions, w') →
    length actions = length facts ∧ act_text <$> actions = facts.

(** With no fact extracted, [add] returns normally and leaves the
    collection as it was. *)
Definition empty_facts_no_mutation (E : Env) (input : string)
    (context : MemoryMetadata) (w : World) : Prop :=
  fails E (trace w) (EvExtractFacts input) = false →
  llm_facts E input = [] →
  (AgenticMemory.add E input context w).1 = Ok tt
  ∧ store (AgenticMemory.add E input context w).2 = store w.

(** An UPDATE or DELETE whose identifier is missing, or is not the
    identifier of a candidate. *)
Definition names_no_candidate (candidates : list Memory) (a : MemoryAction)
    : Prop :=
  (act_type a = UPDATE ∨ act_type a = DELETE)
  ∧ ∀ i, act_id a = Some i → i ∉ mem_id <$> candidates.

(** Such an action makes [add] fail before any storage mutation. *)
Definition validation_enforced (E : Env) (input : string)
    (context : MemoryMetadata) (w : World) : Prop :=
  ∀ facts w1 factEmbeddings w2 candidates w3 actions w4,
    AgenticMemory.extractFacts E input w = (Ok facts, w1) →
    AgenticMemory.embedFacts E facts ∅ w1 = (Ok factEmbeddings, w2) →
    AgenticMemory.findSimilarMemories E facts (userId context) w2
      = (Ok candidates, w3) →
    AgenticMemory.generateConsolidationActions E candidates facts w3
      = (Ok actions, w4) →
    Exists (names_no_candidate candidates) actions →
    is_ok (AgenticMemory.add E input context w).1 = false
    ∧ store (AgenticMemory.add E input context w).2 = store w.

Definition is_embed_of (text : string) (ev : Event) : bool :=
  match ev with
  | EvEmbed t => bool_decide (t = text)
  | _ => false
  end.

(** How many times [text] was sent to the embedding model. *)
Definition embed_calls (text : string) (evs : list Event) : nat :=
  length (filter (λ ev, is_embed_of text ev) evs).

(** Every extracted fact is embedded exactly once during [add]. *)
Definition embedded_once (E : Env) (input : string)
    (context : MemoryMetadata) (w : World) : Prop :=
  ∀ fact, fact ∈ llm_facts E input →
    embed_calls fact (events_of (AgenticMemory.add E input context) w) = 1%nat.

(** A computation that leaves the collection, the clock and the UUID
    source as they were, whatever its outcome. *)
Definition is_upsert (ev : Event) : bool :=
  match ev with EvUpsert _ _ _ => true | _ => false end.

Definition read_only {A} (m : M A) : Prop :=
  ∀ w r w', m w = (r, w') →
    store w' = store w ∧ ticks w' = ticks w ∧ uuids w' = uuids w
    ∧ ∃ evs, trace w' = trace w ++ evs
             ∧ Forall (λ ev, is_upsert ev = false) evs.

(** An upsert request stamped by the applier for [context]: its
    [metadata.timestamp] is the clock reading number [n], taken between
    the readings [lo] and [hi], and its [createdAt] is the next one. *)
Definition stamped (E : Env) (context : MemoryMetadata) (lo hi : nat)
    (ev : Event) : Prop :=
  match ev with
  | EvUpsert _ _ p =>
      ∃ n, (lo ≤ n ∧ S n < hi)%nat
           ∧ pl_metadata p =
               {| userId := userId context; timestamp := clock E n |}
           ∧ pl_createdAt p = clock E (S n)
  | _ => True
  end.

(** Every upsert a computation issues for [context] is [stamped] with a
    clock reading taken while it ran. *)
Definition stamps {A} (E : Env) (context : MemoryMetadata) (m : M A) : Prop :=
  ∀ w r w', m w = (r, w') →
    (ticks w ≤ ticks w')%nat
    ∧ ∃ evs, trace w' = trace w ++ evs
             ∧ Forall (stamped E context (ticks w) (ticks w')) evs.

(** What one fact's vector query returns from the collection [s], and
    the requests the retriever issues for a fact sequence. *)
Definition neighbours (E : Env) (s : gmap string Point) (user fact : string)
    : list Memory :=
  MemoryStorage.to_memory <$>
    qdrant_search E s user (embedding E fact) 5 (5 # 10)%Q.

Definition retriever_requests (E : Env) (user : string) (facts : list string)
    : list Event :=
  flat_map
    (λ fact, [EvEmbed fact; EvSearch user (embedding E fact) 5 (5 # 10)%Q])
    facts.

(** [w'] is the world reached from [w] by the passes for [actions], one
    after the other, each of them returning and each starting in the
    world its predecessor left. *)
Fixpoint applied_in_order (E : Env) (factEmbeddings : gmap string Vector)
    (context : MemoryMetadata) (actions : list MemoryAction) (w w' : World)
    : Prop :=
  match actions with
  | [] => w' = w
  | a :: rest =>
      ∃ w1, AgenticMemory.applyMemoryAction E a factEmbeddings context w
            = (Ok tt, w1)
            ∧ applied_in_order E factEmbeddings context rest w1 w'
  end.

(** An action that reaches the collection when applied. *)
Definition mutating (a : MemoryAction) : bool :=
  match act_type a with
  | ADD => true
  | UPDATE | DELETE => truthy (act_id a)
  | UNCHANGED => false
  end.

(** ** Vocabulary of the further properties *)

(** Every memory of the collection [s'] either belongs to [user] and
    sits under one of the UUIDs number [lo] to [hi - 1], or was in [s]
    under the same identifier with the same owner. *)
Definition owners_kept (E : Env) (user : string) (lo hi : nat)
    (s s' : gmap string Point) : Prop :=
  ∀ i pt', s' !! i = Some pt' →
    (owner pt' = user ∧ ∃ n, (lo ≤ n < hi)%nat ∧ i = uuid E n)
    ∨ ∃ pt, s !! i = Some pt ∧ owner pt = owner pt'.

(** A clock that never runs backwards. *)
Definition clock_monotone (E : Env) : Prop :=
  ∀ n m, (n ≤ m)%nat → clock E n ≤ clock E m.

(** No stored memory was modified before it was created, or later than
    the next clock reading. *)
Definition timed (E : Env) (w : World) : Prop :=
  ∀ i pt, store w !! i = Some pt →
    pl_createdAt (pt_payload pt) ≤ pl_updatedAt (pt_payload pt)
    ∧ pl_updatedAt (pt_payload pt) ≤ clock E (ticks w).

(** An upsert whose indexed vector is the embedding of the content it
    stores. *)
Definition embeds_its_content (E : Env) (ev : Event) : Prop :=
  match ev with
  | EvUpsert _ v p => v = embedding E (pl_content p)
  | _ => True
  end.

(** A map from texts to vectors that holds only embeddings. *)
Definition holds_embeddings (E : Env) (fe : gmap string Vector) : Prop :=
  ∀ text v, fe !! text = Some v → v = embedding E text.

(** ** Collections: [constructor], [initialize], [createIndexes],
    [deleteAllMemories]

    These methods act on the cluster rather than on the points of one
    collection, so they get a state of their own: the collections by
    name, each with its vector parameters, its payload indexes and its
    points, and the log of the requests sent.  [refuses h rq] tells
    whether the request [rq], sent after the requests [h], is answered
    by an error. *)

Module Admin.

Record MemoryStorageConfig := {
  url : string;
  apiKey : option string;
  collectionName : option string;
}.

(** [this.collectionName = config.collectionName || 'agentic_memory'] *)
Definition collection_of (config : MemoryStorageConfig) : string :=
  if truthy (collectionName config) then default "" (collectionName config)
  else "agentic_memory".

Record Collection := {
  vector_size : nat;
  distance : string;
  payload_indexes : list (string * string);
  points : gmap string Point;
}.

Inductive Request :=
| GetCollections
| CreateCollection (name : string) (size : nat) (dist : string)
| CreatePayloadIndex (name field schema : string)
| DeleteByUser (name user : string).

Record Cluster := {
  collections : gmap string Collection;
  requests : list Request;
}.

Inductive Failure :=
| Refused (rq : Request)
| Failed (msg : string) (cause : Failure).

Inductive Outcome (A : Type) :=
| Done (a : A)
| Raised (e : Failure).
Arguments Done {A} a.
Arguments Raised {A} e.

Definition C (A : Type) : Type := Cluster → Outcome A * Cluster.

Definition ret {A} (a : A) : C A := λ c, (Done a, c).

Definition bind {A B} (m : C A) (k : A → C B) : C B :=
  λ c, match m c with
       | (Done a, c') => k a c'
       | (Raised e, c') => (Raised e, c')
       end.

Definition throw {A} (e : Failure) : C A := λ c, (Raised e, c).

Definition try_catch {A} (m : C A) (h : Failure → C A) : C A :=
  λ c, match m c with
       | (Done a, c') => (Done a, c')
       | (Raised e, c') => h e c'
       end.

Definition logged (rq : Request) (c : Cluster) : Cluster :=
  {| collections := collections c; requests := requests c ++ [rq] |}.

Definition with_collections (cs : gmap string Collection) (c : Cluster)
    : Cluster :=
  {| collections := cs; requests := requests c |}.

(** Send one request.  It is logged; it has an effect, given by
    [effect], only when it is answered, and a request naming a
    collection in a state the store rejects ([effect] undefined) is
    answered by an error as well. *)
Definition send (refuses : list Request → Request → bool) (rq : Request)
    (effect : gmap string Collection → option (gmap string Collection))
    : C unit :=
  λ c, if refuses (requests c) rq
       then (Raised (Refused rq), logged rq c)
       else match effect (collections c) with
            | Some cs => (Done tt, with_collections cs (logged rq c))
            | None => (Raised (Refused rq), logged rq c)
            end.

(** [client.getCollections()], reduced to the names. *)
Definition getCollections (refuses : list Request → Request → bool)
    : C (list string) :=
  bind (send refuses GetCollections Some)
       (λ _ c, (Done (map_to_list (collections c)).*1, c)).

(** [client.createCollection(name, { vectors: { size, distance } })]:
    a new, empty collection; the name must be free. *)
Definition createCollection (refuses : list Request → Request → bool)
    (name : string) (size : nat) (dist : string) : C unit :=
  send refuses (CreateCollection name size dist)
    (λ cs, match cs !! name with
           | Some _ => None
           | None =>
               Some (<[name := {| vector_size := size; distance := dist;
                                  payload_indexes := []; points := ∅ |}]> cs)
           end).

Definition add_index (field schema : string) (col : Collection) : Collection :=
  {| vector_size := vector_size col; distance := distance col;
     payload_indexes := payload_indexes col ++ [(field, schema)];
     points := points col |}.

(** [client.createPayloadIndex(name, { field_name, field_schema })] *)
Definition createPayloadIndex (refuses : list Request → Request → bool)
    (name field schema : string) : C unit :=
  send refuses (CreatePayloadIndex name field schema)
    (λ cs, match cs !! name with
           | Some _ => Some (alter (add_index field schema) name cs)
           | None => None
           end).

Definition without_user (user : string) (col : Collection) : Collection :=
  {| vector_size := vector_size col; distance := distance col;
     payload_indexes := payload_indexes col;
     points := filter (λ ip, owner ip.2 ≠ user) (points col) |}.

(** [client.delete(name, { filter: { must: [{ key: 'metadata.userId',
    match: { value: userId } }] } })] *)
Definition deleteByUser (refuses : list Request → Request → bool)
    (name user : string) : C unit :=
  send refuses (DeleteByUser name user)
    (λ cs, match cs !! name with
           | Some _ => Some (alter (without_user user) name cs)
           | None => None
           end).

(** [createIndexes()] *)
Definition createIndexes (refuses : list Request → Request → bool)
    (name : string) : C unit :=
  try_catch
    (bind (createPayloadIndex refuses name "metadata.userId" "keyword") (λ _,
     bind (createPayloadIndex refuses name "metadata.timestamp" "integer") (λ _,
     createPayloadIndex refuses name "content" "text")))
    (λ error, ret tt).

(** [initialize()] *)
Definition initialize (refuses : list Request → Request → bool)
    (config : MemoryStorageConfig) : C unit :=
  let name := collection_of config in
  try_catch
    (bind (getCollections refuses) (λ names,
     let exists_ := existsb (λ col, bool_decide (col = name)) names in
     if negb exists_
     then bind (createCollection refuses name 1536 "Cosine") (λ _,
          createIndexes refuses name)
     else ret tt))
    (λ error, throw (Failed "Memory storage initialization failed" error)).

(** [deleteAllMemories(userId)] *)
Definition deleteAllMemories (refuses : list Request → Request → bool)
    (config : MemoryStorageConfig) (user : string) : C unit :=
  try_catch
    (deleteByUser refuses (collection_of config) user)
    (λ error, throw (Failed "Failed to delete all memories" error)).

(** The three indexes [createIndexes] asks for, in its order. *)
Definition wanted_indexes : list (string * string) :=
  [("metadata.userId", "keyword"); ("metadata.timestamp", "integer");
   ("content", "text")].

Definition answers_all (h : list Request) (rq : Request) : bool := false.

Definition refuses_indexes (h : list Request) (rq : Request) : bool :=
  match rq with CreatePayloadIndex _ _ _ => true | _ => false end.

Definition refuses_timestamp_index (h : list Request) (rq : Request) : bool :=
  match rq with
  | CreatePayloadIndex _ field _ => bool_decide (field = "metadata.timestamp")
  | _ => false
  end.

Definition default_config : MemoryStorageConfig :=
  {| url := "http://localhost:6333"; apiKey := None; collectionName := None |}.

Definition empty_cluster : Cluster := {| collections := ∅; requests := [] |}.

End Admin.

(** ** Basic facts about the primitives *)

Create HintDb mem discriminated.

Ltac unfold_m :=
  unfold bind, try_catch, ret, throw, request, get_store, modify_store,
    Date_now, randomUUID in *.

Section Primitives.
Context (E : Env).

Lemma embedQuery_eq (query : string) (w : World) :
  MemoryStorage.embedQuery E query w =
    (if fails E (trace w) (EvEmbed query)
     then Err (Wrapped "Failed to generate embedding" (Collab (EvEmbed query)))
     else Ok (embedding E query),
     record_event (EvEmbed query) w).
Proof.
  unfold MemoryStorage.embedQuery. unfold_m.
  by destruct (fails E (trace w) (EvEmbed query)).
Qed.

Lemma retrieve_eq (i : string) (w : World) :
  client.retrieve E i w =
    (if fails E (trace w) (EvRetrieve i)
     then Err (Collab (EvRetrieve i))
     else Ok (qdrant_retrieve (store w) i),
     record_event (EvRetrieve i) w).
Proof.
  unfold client.retrieve. unfold_m.
  by destruct (fails E (trace w) (EvRetrieve i)).
Qed.

Lemma search_eq (user : string) (v : Vector) (limit : nat) (th : Q)
    (w : World) :
  client.search E user v limit th w =
    (if fails E (trace w) (EvSearch user v limit th)
     then Err (Collab (EvSearch user v limit th))
     else Ok (qdrant_search E (store w) user v limit th),
     record_event (EvSearch user v limit th) w).
Proof.
  unfold client.search. unfold_m.
  by destruct (fails E (trace w) (EvSearch user v limit th)).
Qed.

Lemma scroll_eq (user : string) (s e : Z) (limit : nat) (w : World) :
  client.scroll E user s e limit w =
    (if fails E (trace w) (EvScroll user s e limit)
     then Err (Collab (EvScroll user s e limit))
     else Ok (qdrant_scroll (store w) user s e limit),
     record_event (EvScroll user s e limit) w).
Proof.
  unfold client.scroll. unfold_m.
  by destruct (fails E (trace w) (EvScroll user s e limit)).
Qed.

Lemma delete_eq (i : string) (w : World) :
  client.delete E i w =
    (if fails E (trace w) (EvDelete i)
     then (Err (Collab (EvDelete i)), record_event (EvDelete i) w)
     else (Ok tt,
           set_store (base.delete i (store w)) (record_event (EvDelete i) w))).
Proof.
  unfold client.delete. unfold_m.
  by destruct (fails E (trace w) (EvDelete i)).
Qed.

Lemma setPayload_eq (i : string) (p : PayloadPatch) (w : World) :
  client.setPayload E i p w =
    (if fails E (trace w) (EvSetPayload i p)
     then (Err (Collab (EvSetPayload i p)), record_event (EvSetPayload i p) w)
     else (Ok tt,
           set_store (alter (apply_patch p) i (store w))
             (record_event (EvSetPayload i p) w))).
Proof.
  unfold client.setPayload. unfold_m.
  by destruct (fails E (trace w) (EvSetPayload i p)).
Qed.

Lemma upsert_eq (i : string) (v : Vector) (p : Payload) (w : World) :
  client.upsert E i v p w =
    (if fails E (trace w) (EvUpsert i v p)
     then (Err (Collab (EvUpsert i v p)), record_event (EvUpsert i v p) w)
     else (Ok tt,
           set_store (<[i := {| pt_vector := v; pt_payload := p |}]> (store w))
             (record_event (EvUpsert i v p) w))).
Proof.
  unfold client.upsert. unfold_m.
  by destruct (fails E (trace w) (EvUpsert i v p)).
Qed.

(** Ranking permutes: it neither adds nor drops a point. *)
Lemma elem_of_insert_ranked (v : Vector) (x y : string * Point)
    (l : list (string * Point)) :
  y ∈ insert_ranked E v x l ↔ y = x ∨ y ∈ l.
Proof.
  induction l as [|z l IH]; simpl.
  - rewrite list_elem_of_singleton, elem_of_nil. tauto.
  - case_match; rewrite !elem_of_cons; [tauto|].
    rewrite IH. tauto.
Qed.

Lemma elem_of_rank (v : Vector) (y : string * Point)
    (l : list (string * Point)) :
  y ∈ rank E v l ↔ y ∈ l.
Proof.
  induction l as [|x l IH]; simpl; [done|].
  by rewrite elem_of_insert_ranked, IH, elem_of_cons.
Qed.

Lemma qdrant_search_owner (s : gmap string Point) (user : string)
    (v : Vector) (limit : nat) (th : Q) :
  Forall (λ r, userId (pl_metadata (rec_payload r)) = user)
    (qdrant_search E s user v limit th).
Proof.
  unfold qdrant_search. apply Forall_fmap, Forall_forall.
  intros ip Hip. apply (subseteq_take limit), elem_of_rank in Hip.
  apply list_elem_of_filter in Hip as [Hp _].
  apply andb_prop_elim in Hp as [Hu _].
  by apply bool_decide_unpack in Hu.
Qed.

End Primitives.

Lemma qdrant_scroll_owner (s : gmap string Point) (user : string)
    (startDate endDate : Z) (limit : nat) :
  Forall (λ r, userId (pl_metadata (rec_payload r)) = user
               ∧ startDate ≤ timestamp (pl_metadata (rec_payload r)) ≤ endDate)
    (qdrant_scroll s user startDate endDate limit).
Proof.
  unfold qdrant_scroll. apply Forall_fmap, Forall_forall.
  intros ip Hip. apply (subseteq_take limit) in Hip.
  apply list_elem_of_filter in Hip as [Hp _].
  apply andb_prop_elim in Hp as [Hu Hr].
  apply bool_decide_unpack in Hu.
  unfold match_range in Hr. apply andb_prop_elim in Hr as [H1 H2].
  apply Is_true_true, Z.leb_le in H1. apply Is_true_true, Z.leb_le in H2.
  done.
Qed.

(** ** Reads: [getMemory], [searchMemories], [getMemoriesByDateRange] *)

Section Reads.
Context (E : Env).

Lemma getMemory_eq (i : string) (w : World) :
  MemoryStorage.getMemory E i w =
    (Ok (if fails E (trace w) (EvRetrieve i) then None
         else memory_of i <$> store w !! i),
     record_event (EvRetrieve i) w).
Proof.
  unfold MemoryStorage.getMemory, try_catch, bind.
  rewrite retrieve_eq. destruct (fails E (trace w) (EvRetrieve i)); [done|].
  unfold qdrant_retrieve. simpl. by destruct (store w !! i).
Qed.

Lemma searchMemories_vector_eq (user : string) (query : option string)
    (v : Vector) (limit : nat) (th : Q) (w : World) :
  let ev := EvSearch user v limit th in
  MemoryStorage.searchMemories E
    {| sp_userId := user; sp_query := query; sp_vector := Some v;
       sp_limit := Some limit; sp_threshold := Some th |} w =
    (if fails E (trace w) ev
     then Err (Wrapped "Failed to search memories" (Collab ev))
     else Ok (MemoryStorage.to_memory <$>
                qdrant_search E (store w) user v limit th),
     record_event ev w).
Proof.
  unfold MemoryStorage.searchMemories, try_catch, bind. simpl.
  unfold ret at 1. rewrite search_eq.
  by destruct (fails E (trace w) (EvSearch user v limit th)).
Qed.

Lemma searchMemories_owner (params : MemorySearchParams) (w w' : World)
    (r : Res (list Memory)) :
  MemoryStorage.searchMemories E params w = (r, w') →
  Forall (λ m, userId (mem_metadata m) = sp_userId params) (returned r)
  ∧ store w' = store w.
Proof.
  unfold MemoryStorage.searchMemories, try_catch, bind.
  destruct (negb (bool_decide (is_Some (sp_vector params)))
            && negb (truthy (sp_query params))).
  { intros [= <- <-]. by split. }
  destruct (sp_vector params) as [v|].
  - unfold ret at 1. rewrite search_eq.
    destruct (fails E (trace w) _); intros [= <- <-]; simpl; [by split|].
    split; [|done]. apply Forall_fmap, qdrant_search_owner.
  - rewrite embedQuery_eq.
    destruct (fails E (trace w) _); [intros [= <- <-]; by split|].
    rewrite search_eq.
    destruct (fails E _ _); intros [= <- <-]; simpl; [by split|].
    split; [|done]. apply Forall_fmap, qdrant_search_owner.
Qed.

Lemma getMemoriesByDateRange_eq (user : string) (startDate endDate : Z)
    (limit : option nat) (w : World) :
  let ev := EvScroll user startDate endDate (default 50%nat limit) in
  MemoryStorage.getMemoriesByDateRange E user startDate endDate limit w =
    (if fails E (trace w) ev
     then Err (Wrapped "Failed to get memories by date range" (Collab ev))
     else Ok (MemoryStorage.to_memory <$>
                qdrant_scroll (store w) user startDate endDate
                  (default 50%nat limit)),
     record_event ev w).
Proof.
  unfold MemoryStorage.getMemoriesByDateRange, try_catch, bind.
  rewrite scroll_eq. by destruct (fails E (trace w) _).
Qed.

Lemma getMemoriesByDateRange_owner (user : string) (startDate endDate : Z)
    (limit : option nat) (w w' : World) (r : Res (list Memory)) :
  MemoryStorage.getMemoriesByDateRange E user startDate endDate limit w
    = (r, w') →
  Forall (λ m, userId (mem_metadata m) = user
               ∧ startDate ≤ timestamp (mem_metadata m) ≤ endDate)
    (returned r)
  ∧ store w' = store w.
Proof.
  rewrite getMemoriesByDateRange_eq.
  destruct (fails E (trace w) _); intros [= <- <-]; simpl; [by split|].
  split; [|done]. apply Forall_fmap, qdrant_scroll_owner.
Qed.

End Reads.

(** C9, as the code has it: [get] never raises; it answers null when
    no memory has the identifier and also when the retrieve request
    fails, and otherwise answers the stored memory under that
    identifier. *)
Theorem get_null_iff_missing_or_failed (E : Env) (i : string) (w : World) :
  ∃ r, AgenticMemory.get E i w = (Ok r, record_event (EvRetrieve i) w)
       ∧ (r = None ↔
          store w !! i = None ∨ fails E (trace w) (EvRetrieve i) = true)
       ∧ r = (if fails E (trace w) (EvRetrieve i) then None
              else memory_of i <$> store w !! i).
Proof.
  unfold AgenticMemory.get. rewrite getMemory_eq.
  eexists. split; [done|]. split; [|done].
  destruct (fails E (trace w) (EvRetrieve i)); [by split; auto|].
  destruct (store w !! i); simpl; [|by split; auto].
  split; [done|]. by intros [?|?].
Qed.

(** C9 as stated fails: the memory "m1" exists, the retrieve request
    fails, and [get] reports absence. *)
Lemma get_reports_failure_as_absence :
  ¬ absent_iff_missing
      (Sample.env [] [] Sample.retrieve_fails)
      "m1" (Sample.world Sample.bobs).
Proof.
  unfold absent_iff_missing. intros [H _].
  by specialize (H eq_refl).
Qed.

(** ** User isolation *)

(** C2, as the code has it: the two user-scoped operations, [search]
    and [getMemoriesByDateRange], run for a user other than [B],
    return no memory of [B] and leave all of [B]'s memories as they
    were. *)
Theorem user_scoped_operations_isolated (E : Env) (context : MemoryMetadata)
    (B : string) (op : Operation) (w : World) :
  userId context ≠ B →
  user_scoped op = true →
  isolated E context B op w.
Proof.
  intros HAB Hop. unfold isolated.
  destruct op as [query|startDate endDate limit| | |]; try discriminate Hop;
    simpl; clear Hop.
  - unfold AgenticMemory.search.
    destruct (MemoryStorage.searchMemories E _ w) as [r w'] eqn:Hrun.
    apply searchMemories_owner in Hrun as [Hown Hstore]. simpl in *.
    split.
    + eapply Forall_impl; [exact Hown|]. intros m Hm. simpl in Hm. congruence.
    + intros i pt Hi _. by rewrite Hstore.
  - unfold AgenticMemory.getMemoriesByDateRange.
    destruct (MemoryStorage.getMemoriesByDateRange E _ _ _ _ w)
      as [r w'] eqn:Hrun.
    apply getMemoriesByDateRange_owner in Hrun as [Hown Hstore]. simpl.
    split.
    + eapply Forall_impl; [exact Hown|]. intros m [Hm _]. simpl. congruence.
    + intros i pt Hi _. by rewrite Hstore.
Qed.

Lemma user_scoped_operations_isolated_witness :
  isolated (Sample.env [] [] Sample.never) Sample.alice "bob"
    (OpSearch "tea") (Sample.world Sample.bobs).
Proof.
  apply user_scoped_operations_isolated; [discriminate|reflexivity].
Defined.

(** C2 as stated fails: [delete] takes an identifier and no user, so
    alice's call removes bob's memory "m1". *)
Lemma delete_crosses_users :
  userId Sample.alice ≠ "bob"
  ∧ ¬ isolated (Sample.env [] [] Sample.never) Sample.alice "bob"
        (OpDelete "m1") (Sample.world Sample.bobs).
Proof.
  split; [discriminate|].
  intros [_ H].
  specialize (H "m1" (Sample.point "bob" "bob likes tea" 500) eq_refl eq_refl).
  vm_compute in H. discriminate H.
Qed.

(** ** The resolver *)

Lemma generateConsolidationActions_eq (E : Env) (oldMemories : list Memory)
    (newFacts : list string) (w : World) :
  let formatted := (λ m, (mem_id m, mem_content m)) <$> oldMemories in
  let ev := EvConsolidate formatted newFacts in
  AgenticMemory.generateConsolidationActions E oldMemories newFacts w =
    (if fails E (trace w) ev then Err (Collab ev)
     else Ok (llm_actions E formatted newFacts),
     record_event ev w).
Proof.
  unfold AgenticMemory.generateConsolidationActions. unfold_m. simpl.
  by destruct (fails E (trace w) _).
Qed.

Lemma extractFacts_eq (E : Env) (input : string) (w : World) :
  AgenticMemory.extractFacts E input w =
    (if fails E (trace w) (EvExtractFacts input)
     then Err (Collab (EvExtractFacts input))
     else Ok (llm_facts E input),
     record_event (EvExtractFacts input) w).
Proof.
  unfold AgenticMemory.extractFacts. unfold_m.
  by destruct (fails E (trace w) _).
Qed.

(** C4, as the code has it: when the consolidation request is
    answered, the resolver returns the reasoning model's action list
    for the candidates' (id, content) pairs and the facts as it is,
    with nothing added, dropped or reordered, and leaves the
    collection untouched. *)
Theorem resolver_returns_model_answer (E : Env) (candidates : list Memory)
    (facts : list string) (w : World) :
  let formatted := (λ m, (mem_id m, mem_content m)) <$> candidates in
  fails E (trace w) (EvConsolidate formatted facts) = false →
  ∃ w', AgenticMemory.generateConsolidationActions E candidates facts w
          = (Ok (llm_actions E formatted facts), w')
        ∧ store w' = store w
        ∧ trace w' = trace w ++ [EvConsolidate formatted facts].
Proof.
  intros formatted Hok. rewrite generateConsolidationActions_eq.
  fold formatted. rewrite Hok. by eexists.
Qed.

Lemma resolver_returns_model_answer_witness :
  ∃ w', AgenticMemory.generateConsolidationActions
          (Sample.env ["f"] [Sample.action ADD None "f"] Sample.never)
          [memory_of "m1" (Sample.point "alice" "likes tea" 500)] ["f"]
          (Sample.world ∅)
        = (Ok [Sample.action ADD None "f"], w')
      ∧ store w' = ∅
      ∧ trace w' = [EvConsolidate [("m1", "likes tea")] ["f"]].
Proof.
  apply (resolver_returns_model_answer
           (Sample.env ["f"] [Sample.action ADD None "f"] Sample.never)
           [memory_of "m1" (Sample.point "alice" "likes tea" 500)] ["f"]
           (Sample.world ∅)).
  reflexivity.
Defined.

(** C4 as stated fails: the model may answer one fact with no action
    at all, and the resolver returns that answer. *)
Lemma resolver_may_return_no_action :
  ¬ one_action_per_fact (Sample.env ["f"] [] Sample.never) [] ["f"]
      (Sample.world ∅).
Proof.
  intros H.
  destruct (H ltac:(discriminate) [] _ eq_refl) as [Hlen _].
  discriminate Hlen.
Qed.

(** ** Stages that only read *)

Lemma read_only_ret {A} (a : A) : read_only (ret a).
Proof.
  intros w r w' [= <- <-]. split_and!; [done..|].
  exists []. by rewrite app_nil_r.
Qed.

Lemma read_only_throw {A} (e : Exn) : read_only (@throw A e).
Proof.
  intros w r w' [= <- <-]. split_and!; [done..|].
  exists []. by rewrite app_nil_r.
Qed.

Lemma read_only_request (E : Env) (ev : Event) :
  is_upsert ev = false → read_only (request E ev).
Proof.
  intros Hev w r w'. unfold request.
  destruct (fails E (trace w) ev); intros [= <- <-];
    (split_and!; [done..|]); exists [ev]; split; auto.
Qed.

Lemma read_only_get_store : read_only get_store.
Proof.
  intros w r w' [= <- <-]. split_and!; [done..|].
  exists []. by rewrite app_nil_r.
Qed.

Lemma read_only_seq {w1 w2 w3 : World} :
  (store w2 = store w1 ∧ ticks w2 = ticks w1 ∧ uuids w2 = uuids w1
   ∧ ∃ evs, trace w2 = trace w1 ++ evs
            ∧ Forall (λ ev, is_upsert ev = false) evs) →
  (store w3 = store w2 ∧ ticks w3 = ticks w2 ∧ uuids w3 = uuids w2
   ∧ ∃ evs, trace w3 = trace w2 ++ evs
            ∧ Forall (λ ev, is_upsert ev = false) evs) →
  store w3 = store w1 ∧ ticks w3 = ticks w1 ∧ uuids w3 = uuids w1
  ∧ ∃ evs, trace w3 = trace w1 ++ evs
           ∧ Forall (λ ev, is_upsert ev = false) evs.
Proof.
  intros (Hs1 & Ht1 & Hu1 & evs1 & He1 & Hf1)
         (Hs2 & Ht2 & Hu2 & evs2 & He2 & Hf2).
  split_and!; [congruence..|].
  exists (evs1 ++ evs2). rewrite He2, He1, app_assoc.
  split; [done|]. by apply Forall_app.
Qed.

Lemma read_only_bind {A B} (m : M A) (k : A → M B) :
  read_only m → (∀ a, read_only (k a)) → read_only (bind m k).
Proof.
  intros Hm Hk w r w'. unfold bind.
  destruct (m w) as [[a|e] w1] eqn:Hrun; apply Hm in Hrun.
  - intros Hrun'. apply Hk in Hrun'. by eapply read_only_seq.
  - by intros [= <- <-].
Qed.

Lemma read_only_try_catch {A} (m : M A) (h : Exn → M A) :
  read_only m → (∀ e, read_only (h e)) → read_only (try_catch m h).
Proof.
  intros Hm Hh w r w'. unfold try_catch.
  destruct (m w) as [[a|e] w1] eqn:Hrun; apply Hm in Hrun.
  - by intros [= <- <-].
  - intros Hrun'. apply Hh in Hrun'. by eapply read_only_seq.
Qed.

Global Hint Resolve read_only_ret read_only_throw read_only_request
  read_only_get_store : mem.

Ltac read_only_steps :=
  repeat first
    [ apply read_only_bind; [|intros ?]
    | apply read_only_try_catch; [|intros ?]
    | solve [auto with mem]
    | case_match ].

Lemma read_only_embedQuery (E : Env) (query : string) :
  read_only (MemoryStorage.embedQuery E query).
Proof. unfold MemoryStorage.embedQuery. read_only_steps. Qed.
Global Hint Resolve read_only_embedQuery : mem.

Lemma read_only_searchMemories (E : Env) (params : MemorySearchParams) :
  read_only (MemoryStorage.searchMemories E params).
Proof.
  unfold MemoryStorage.searchMemories, client.search. read_only_steps.
Qed.
Global Hint Resolve read_only_searchMemories : mem.

Lemma read_only_extractFacts (E : Env) (input : string) :
  read_only (AgenticMemory.extractFacts E input).
Proof. unfold AgenticMemory.extractFacts. read_only_steps. Qed.

Lemma read_only_generateConsolidationActions (E : Env)
    (oldMemories : list Memory) (newFacts : list string) :
  read_only (AgenticMemory.generateConsolidationActions E oldMemories newFacts).
Proof. unfold AgenticMemory.generateConsolidationActions. read_only_steps. Qed.

Lemma read_only_embedFacts (E : Env) (facts : list string)
    (factEmbeddings : gmap string Vector) :
  read_only (AgenticMemory.embedFacts E facts factEmbeddings).
Proof.
  revert factEmbeddings. induction facts as [|fact facts IH]; intros fe; simpl.
  - auto with mem.
  - apply read_only_bind; [auto with mem|]. intros v. apply IH.
Qed.

Lemma read_only_findSimilarMemories_loop (E : Env) (facts : list string)
    (user : string) (allMemories : list Memory) :
  read_only (AgenticMemory.findSimilarMemories_loop E facts user allMemories).
Proof.
  revert allMemories. induction facts as [|fact facts IH]; intros acc; simpl.
  - auto with mem.
  - apply read_only_bind; [auto with mem|]. intros v.
    apply read_only_bind; [auto with mem|]. intros ms. apply IH.
Qed.

Lemma read_only_findSimilarMemories (E : Env) (facts : list string)
    (user : string) :
  read_only (AgenticMemory.findSimilarMemories E facts user).
Proof.
  unfold AgenticMemory.findSimilarMemories.
  apply read_only_bind; [apply read_only_findSimilarMemories_loop|].
  intros ms. auto with mem.
Qed.

Global Hint Resolve read_only_extractFacts read_only_embedFacts
  read_only_findSimilarMemories read_only_generateConsolidationActions : mem.

(** ** Mutations: [updateMemory], [deleteMemory], [addMemory] *)

Section Mutations.
Context (E : Env).

Lemma deleteMemory_eq (i : string) (w : World) :
  MemoryStorage.deleteMemory E i w =
    (if fails E (trace w) (EvDelete i)
     then (Err (Wrapped "Failed to delete memory" (Collab (EvDelete i))),
           record_event (EvDelete i) w)
     else (Ok tt,
           set_store (base.delete i (store w)) (record_event (EvDelete i) w))).
Proof.
  unfold MemoryStorage.deleteMemory, try_catch. rewrite delete_eq.
  by destruct (fails E (trace w) (EvDelete i)).
Qed.

(** Whatever its outcome, [updateMemory] leaves the indexed vector
    of every point as it was; so does [deleteMemory] for the points
    it keeps. *)
Lemma updateMemory_keeps_vector (i : string) (updates : PartialMemory)
    (w w' : World) (r : Res unit) :
  MemoryStorage.updateMemory E i updates w = (r, w') →
  ∀ j, pt_vector <$> store w' !! j = pt_vector <$> store w !! j.
Proof.
  assert (Halter : ∀ p (s : gmap string Point) j,
    pt_vector <$> alter (apply_patch p) i s !! j = pt_vector <$> s !! j).
  { intros p s j. destruct (decide (i = j)) as [<-|Hne].
    - rewrite lookup_alter_eq. by destruct (s !! i).
    - by rewrite lookup_alter_ne. }
  unfold MemoryStorage.updateMemory, try_catch, bind, Date_now.
  destruct (truthy (upd_content updates)).
  - rewrite embedQuery_eq. simpl.
    destruct (fails E (trace w) _); [by intros [= <- <-]|].
    unfold ret. rewrite setPayload_eq. simpl.
    destruct (fails E _ _); intros [= <- <-] j; simpl; [done|apply Halter].
  - unfold ret. rewrite setPayload_eq. simpl.
    destruct (fails E _ _); intros [= <- <-] j; simpl; [done|apply Halter].
Qed.

(** A successful content update, request by request. *)
Lemma updateMemory_content_ok (i content : string) (w : World) :
  let patch := {| pp_updatedAt := clock E (ticks w);
                  pp_content := Some content;
                  pp_vector := Some (embedding E content);
                  pp_metadata := None |} in
  content ≠ "" →
  fails E (trace w) (EvEmbed content) = false →
  fails E (trace w ++ [EvEmbed content]) (EvSetPayload i patch) = false →
  MemoryStorage.updateMemory E i (AgenticMemory.content_update content) w =
    (Ok tt,
     {| store := alter (apply_patch patch) i (store w);
        trace := (trace w ++ [EvEmbed content]) ++ [EvSetPayload i patch];
        ticks := S (ticks w);
        uuids := uuids w |}).
Proof.
  intros patch Hne He Hs.
  unfold MemoryStorage.updateMemory, try_catch, bind, Date_now. simpl.
  rewrite bool_decide_eq_false_2 by done. simpl.
  rewrite embedQuery_eq. simpl. rewrite He. unfold ret.
  rewrite setPayload_eq. simpl. fold patch. by rewrite Hs.
Qed.

End Mutations.

(** C3: the code misses what it attempts.  Applying the action
    (UPDATE, "m1", "likes green tea") to the memory "m1", whose content
    is "likes tea", replaces the content and bumps [updatedAt] to the
    clock reading, but the new embedding lands in the payload under
    the key [vector]; the indexed vector, the one similarity search
    compares against, is still the embedding of the old content. *)
Theorem update_leaves_indexed_vector_stale :
  let E := Sample.env [] [] Sample.never in
  let run :=
    AgenticMemory.applyMemoryAction E
      (Sample.action UPDATE (Some "m1") "likes green tea") ∅ Sample.alice
      (Sample.world Sample.alices) in
  run.1 = Ok tt
  ∧ ∃ pt, store run.2 !! "m1" = Some pt
          ∧ pl_content (pt_payload pt) = "likes green tea"
          ∧ pl_updatedAt (pt_payload pt) = clock E 0
          ∧ pl_vector (pt_payload pt) = Some (embedding E "likes green tea")
          ∧ pt_vector pt = embedding E "likes tea"
          ∧ pt_vector pt ≠ embedding E "likes green tea".
Proof.
  intros E run. split; [reflexivity|].
  eexists. split; [vm_compute; reflexivity|].
  repeat split. discriminate.
Qed.

(** ** The applier *)

Section Applier.
Context (E : Env).

(** [addMemory] with a precomputed vector: one upsert, no embedding. *)
Lemma addMemory_vector_eq (v : Vector) (content : string)
    (meta : MemoryMetadata) (w : World) :
  let i := uuid E (uuids w) in
  let p := {| pl_content := content; pl_metadata := meta;
              pl_createdAt := clock E (ticks w);
              pl_updatedAt := clock E (ticks w); pl_vector := None |} in
  let logged s := {| store := s; trace := trace w ++ [EvUpsert i v p];
                     ticks := S (ticks w); uuids := S (uuids w) |} in
  MemoryStorage.addMemory E
    {| new_vector := Some v; new_content := content; new_metadata := meta |} w =
    (if fails E (trace w) (EvUpsert i v p)
     then (Err (Wrapped "Failed to add memory" (Collab (EvUpsert i v p))),
           logged (store w))
     else (Ok i, logged (<[i := {| pt_vector := v; pt_payload := p |}]> (store w)))).
Proof.
  intros i p logged.
  unfold MemoryStorage.addMemory, try_catch, bind, randomUUID, Date_now, ret.
  simpl. rewrite upsert_eq. simpl. fold i p.
  by destruct (fails E (trace w) (EvUpsert i v p)).
Qed.

(** [addMemory] without a vector: the content is embedded first. *)
Lemma addMemory_embed_eq (content : string) (meta : MemoryMetadata)
    (w : World) :
  let i := uuid E (uuids w) in
  let v := embedding E content in
  let p := {| pl_content := content; pl_metadata := meta;
              pl_createdAt := clock E (ticks w);
              pl_updatedAt := clock E (ticks w); pl_vector := None |} in
  let logged s evs := {| store := s; trace := (trace w ++ [EvEmbed content]) ++ evs;
                         ticks := S (ticks w); uuids := S (uuids w) |} in
  MemoryStorage.addMemory E
    {| new_vector := None; new_content := content; new_metadata := meta |} w =
    (if fails E (trace w) (EvEmbed content)
     then (Err (Wrapped "Failed to add memory"
                  (Wrapped "Failed to generate embedding"
                     (Collab (EvEmbed content)))),
           logged (store w) [])
     else if fails E (trace w ++ [EvEmbed content]) (EvUpsert i v p)
     then (Err (Wrapped "Failed to add memory" (Collab (EvUpsert i v p))),
           logged (store w) [EvUpsert i v p])
     else (Ok i,
           logged (<[i := {| pt_vector := v; pt_payload := p |}]> (store w))
             [EvUpsert i v p])).
Proof.
  intros i v p logged.
  unfold MemoryStorage.addMemory, try_catch, bind, randomUUID, Date_now, ret.
  simpl. rewrite embedQuery_eq. simpl.
  destruct (fails E (trace w) (EvEmbed content)).
  { unfold throw, logged. by rewrite app_nil_r. }
  rewrite upsert_eq. simpl. fold i v p.
  by destruct (fails E (trace w ++ [EvEmbed content]) (EvUpsert i v p)).
Qed.

(** An action that is not [mutating] is a no-op. *)
Lemma applyMemoryAction_skip (a : MemoryAction)
    (factEmbeddings : gmap string Vector) (context : MemoryMetadata)
    (w : World) :
  mutating a = false →
  AgenticMemory.applyMemoryAction E a factEmbeddings context w = (Ok tt, w).
Proof.
  unfold mutating, AgenticMemory.applyMemoryAction.
  destruct (act_type a); try done; by intros ->.
Qed.

Lemma applyMemoryActions_skip (actions : list MemoryAction)
    (factEmbeddings : gmap string Vector) (context : MemoryMetadata)
    (w : World) :
  Forall (λ a, mutating a = false) actions →
  AgenticMemory.applyMemoryActions E actions factEmbeddings context w
    = (Ok tt, w).
Proof.
  induction 1 as [|a actions Ha _ IH]; simpl; [done|].
  unfold bind. by rewrite applyMemoryAction_skip.
Qed.

(** The loop is the sequential composition of its passes. *)
Lemma applyMemoryActions_app (pre post : list MemoryAction)
    (factEmbeddings : gmap string Vector) (context : MemoryMetadata)
    (w : World) :
  AgenticMemory.applyMemoryActions E (pre ++ post) factEmbeddings context w =
    match AgenticMemory.applyMemoryActions E pre factEmbeddings context w with
    | (Ok _, w1) =>
        AgenticMemory.applyMemoryActions E post factEmbeddings context w1
    | (Err e, w1) => (Err e, w1)
    end.
Proof.
  revert w. induction pre as [|a pre IH]; intros w; simpl; [done|].
  unfold bind.
  destruct (AgenticMemory.applyMemoryAction E a factEmbeddings context w)
    as [[[]|e] w1]; [apply IH|done].
Qed.

(** A pass that raises has not changed the collection. *)
Lemma applyMemoryAction_err_store (a : MemoryAction)
    (factEmbeddings : gmap string Vector) (context : MemoryMetadata)
    (w w' : World) (e : Exn) :
  AgenticMemory.applyMemoryAction E a factEmbeddings context w = (Err e, w') →
  store w' = store w.
Proof.
  unfold AgenticMemory.applyMemoryAction.
  destruct (act_type a).
  - unfold bind, Date_now.
    destruct (factEmbeddings !! act_text a) as [v|].
    + rewrite addMemory_vector_eq. simpl.
      destruct (fails E _ _); [by intros [= <- <-]|done].
    + rewrite addMemory_embed_eq. simpl.
      destruct (fails E _ _); [by intros [= <- <-]|].
      destruct (fails E _ _); [by intros [= <- <-]|done].
  - destruct (truthy (act_id a)); [|done].
    unfold MemoryStorage.updateMemory, try_catch, bind, Date_now.
    cbn [AgenticMemory.content_update upd_content upd_metadata truthy].
    destruct (bool_decide (act_text a = "")); cbn [negb].
    + unfold ret. rewrite setPayload_eq. simpl.
      destruct (fails E _ _); [by intros [= <- <-]|done].
    + rewrite embedQuery_eq.
      destruct (fails E _ _); [by intros [= <- <-]|].
      unfold ret. rewrite setPayload_eq. simpl.
      destruct (fails E _ _); [by intros [= <- <-]|done].
  - destruct (truthy (act_id a)); [|done].
    rewrite deleteMemory_eq.
    destruct (fails E _ _); [by intros [= <- <-]|done].
  - done.
Qed.

End Applier.

Lemma applyMemoryActions_in_order (E : Env) (actions : list MemoryAction)
    (factEmbeddings : gmap string Vector) (context : MemoryMetadata)
    (w w' : World) :
  AgenticMemory.applyMemoryActions E actions factEmbeddings context w
    = (Ok tt, w')
  ↔ applied_in_order E factEmbeddings context actions w w'.
Proof.
  revert w. induction actions as [|a actions IH]; intros w; simpl.
  { unfold ret. split; [by intros [= ->]|by intros ->]. }
  unfold bind.
  destruct (AgenticMemory.applyMemoryAction E a factEmbeddings context w)
    as [[[]|e] w1].
  - rewrite IH. split; [by exists w1|]. by intros (? & [= <-] & ?).
  - split; [done|]. by intros (? & ? & _).
Qed.

(** C6: the applier runs the actions in sequence order and stops at
    the first failing one.  Let the passes for the actions before
    index i return one after the other, each starting in the world its
    predecessor left, and let [w1] be the world they reach; let the
    pass for the action at index i raise [e] there and leave [w2].
    Then the whole run raises [e] in [w2], whatever the actions after
    i are: none of them is executed, and the collection is the one the
    earlier actions produced.  In general the loop returns in [w']
    exactly when the passes in order return and reach [w']. *)
Theorem applier_in_order_fail_fast (E : Env) (pre post : list MemoryAction)
    (a : MemoryAction) (factEmbeddings : gmap string Vector)
    (context : MemoryMetadata) (w w1 w2 : World) (e : Exn) :
  applied_in_order E factEmbeddings context pre w w1 →
  AgenticMemory.applyMemoryAction E a factEmbeddings context w1
    = (Err e, w2) →
  AgenticMemory.applyMemoryActions E (pre ++ a :: post) factEmbeddings context w
    = (Err e, w2)
  ∧ store w2 = store w1
  ∧ AgenticMemory.applyMemoryActions E pre factEmbeddings context w
    = (Ok tt, w1)
  ∧ (∀ rest,
       AgenticMemory.applyMemoryActions E (pre ++ rest) factEmbeddings context w
       = AgenticMemory.applyMemoryActions E rest factEmbeddings context w1)
  ∧ (∀ actions w',
       AgenticMemory.applyMemoryActions E actions factEmbeddings context w
         = (Ok tt, w')
       ↔ applied_in_order E factEmbeddings context actions w w').
Proof.
  intros Hpre%applyMemoryActions_in_order Ha. split_and!.
  - rewrite applyMemoryActions_app, Hpre. simpl. unfold bind. by rewrite Ha.
  - by eapply applyMemoryAction_err_store.
  - exact Hpre.
  - intros rest. by rewrite applyMemoryActions_app, Hpre.
  - intros actions w'. apply applyMemoryActions_in_order.
Qed.

Lemma applier_in_order_fail_fast_witness :
  let E := Sample.env [] [] Sample.delete_fails in
  let pre := [Sample.action ADD None "likes tea"] in
  let a := Sample.action DELETE (Some "m1") "likes tea" in
  let post := [Sample.action ADD None "likes coffee"] in
  let w := Sample.world Sample.bobs in
  let added :=
    {| pt_vector := [9%Q];
       pt_payload :=
         {| pl_content := "likes tea";
            pl_metadata := {| userId := "alice"; timestamp := 1000 |};
            pl_createdAt := 1001; pl_updatedAt := 1001;
            pl_vector := None |} |} in
  let w1 := {| store := <[ "uuid-0" := added ]> Sample.bobs;
               trace := [EvEmbed "likes tea";
                         EvUpsert "uuid-0" [9%Q] (pt_payload added)];
               ticks := 2; uuids := 1 |} in
  let w2 := record_event (EvDelete "m1") w1 in
  let e := Wrapped "Failed to delete memory" (Collab (EvDelete "m1")) in
  AgenticMemory.applyMemoryActions E (pre ++ a :: post) ∅ Sample.alice w
    = (Err e, w2)
  ∧ store w2 = <[ "uuid-0" := added ]> Sample.bobs
  ∧ AgenticMemory.applyMemoryActions E pre ∅ Sample.alice w = (Ok tt, w1)
  ∧ (∀ rest,
       AgenticMemory.applyMemoryActions E (pre ++ rest) ∅ Sample.alice w
       = AgenticMemory.applyMemoryActions E rest ∅ Sample.alice w1)
  ∧ (∀ actions w',
       AgenticMemory.applyMemoryActions E actions ∅ Sample.alice w
         = (Ok tt, w')
       ↔ applied_in_order E ∅ Sample.alice actions w w').
Proof.
  intros E pre a post w added w1 w2 e.
  apply (applier_in_order_fail_fast E pre post a ∅ Sample.alice w w1 w2 e).
  - exists w1. split; reflexivity.
  - reflexivity.
Defined.

(** ** [add] with nothing extracted *)

(** C5, as the code has it: when extraction yields no fact, the
    request [add] sends next is the consolidation request, with no
    candidate and no fact: no embedding, search or storage request
    comes before it.  When that request fails [add] raises; otherwise
    the answered actions are applied as they are, an ADD among them
    included.  When the answer holds no mutating action, [add] returns
    normally, sends nothing further, and nothing but the log of
    requests has changed. *)
Theorem add_without_facts (E : Env) (input : string)
    (context : MemoryMetadata) (w : World) :
  fails E (trace w) (EvExtractFacts input) = false →
  llm_facts E input = [] →
  let w2 := {| store := store w;
               trace := (trace w ++ [EvExtractFacts input])
                          ++ [EvConsolidate [] []];
               ticks := ticks w; uuids := uuids w |} in
  AgenticMemory.add E input context w =
    (if fails E (trace w ++ [EvExtractFacts input]) (EvConsolidate [] [])
     then (Err (Collab (EvConsolidate [] [])), w2)
     else AgenticMemory.applyMemoryActions E (llm_actions E [] []) ∅
            context w2)
  ∧ (fails E (trace w ++ [EvExtractFacts input]) (EvConsolidate [] []) = false →
     Forall (λ a, mutating a = false) (llm_actions E [] []) →
     AgenticMemory.add E input context w = (Ok tt, w2)).
Proof.
  intros Hextract Hfacts w2.
  assert (Hadd : AgenticMemory.add E input context w =
    (if fails E (trace w ++ [EvExtractFacts input]) (EvConsolidate [] [])
     then (Err (Collab (EvConsolidate [] [])), w2)
     else AgenticMemory.applyMemoryActions E (llm_actions E [] []) ∅
            context w2)).
  { unfold AgenticMemory.add, bind.
    rewrite extractFacts_eq, Hextract, Hfacts.
    unfold AgenticMemory.findSimilarMemories, bind, ret. simpl.
    rewrite generateConsolidationActions_eq. simpl.
    by destruct (fails E (trace w ++ [EvExtractFacts input])
                  (EvConsolidate [] [])). }
  split; [exact Hadd|].
  intros Hconsolidate Hactions. rewrite Hadd, Hconsolidate.
  by rewrite applyMemoryActions_skip.
Qed.

Lemma add_without_facts_witness :
  let quiet := Sample.env [] [Sample.action UNCHANGED None "likes tea"]
                 Sample.never in
  let adding := Sample.env [] [Sample.action ADD None "likes tea"]
                  Sample.never in
  let w2 := {| store := Sample.bobs;
               trace := [EvExtractFacts "hello"; EvConsolidate [] []];
               ticks := 0; uuids := 0 |} in
  AgenticMemory.add quiet "hello" Sample.alice (Sample.world Sample.bobs)
    = (Ok tt, w2)
  ∧ AgenticMemory.add adding "hello" Sample.alice (Sample.world Sample.bobs)
    = AgenticMemory.applyMemoryActions adding
        [Sample.action ADD None "likes tea"] ∅ Sample.alice w2.
Proof.
  intros quiet adding w2. split.
  - apply (add_without_facts quiet "hello" Sample.alice
             (Sample.world Sample.bobs)); [reflexivity..|].
    repeat constructor.
  - apply (add_without_facts adding "hello" Sample.alice
             (Sample.world Sample.bobs)); reflexivity.
Defined.

(** C5 as stated fails, in two ways: with no fact extracted the
    reasoning model is still asked for actions, and an ADD in its
    answer is applied; and when that request fails, [add] raises. *)
Lemma add_without_facts_may_mutate_or_raise :
  ¬ empty_facts_no_mutation
      (Sample.env [] [Sample.action ADD None "likes tea"] Sample.never)
      "hello" Sample.alice (Sample.world ∅)
  ∧ ¬ empty_facts_no_mutation
        (Sample.env [] [] Sample.consolidate_fails)
        "hello" Sample.alice (Sample.world ∅).
Proof.
  split.
  - intros H. destruct (H eq_refl eq_refl) as [_ Hstore].
    apply (f_equal (λ s : gmap string Point, s !! "uuid-0")) in Hstore.
    vm_compute in Hstore. discriminate Hstore.
  - intros H. destruct (H eq_refl eq_refl) as [Hok _].
    vm_compute in Hok. discriminate Hok.
Qed.

(** ** The retriever *)

Lemma findIndex_first {A} (p : A → bool) (pre : list A) (x : A) (l : list A) :
  p x = true →
  AgenticMemory.findIndex p (pre ++ x :: l) = Some (length pre)
  ↔ Forall (λ y, p y = false) pre.
Proof.
  intros Hx. induction pre as [|y pre IH]; simpl.
  - rewrite Hx. by split.
  - destruct (p y) eqn:Hy.
    + split; [discriminate|]. intros Hall. apply Forall_cons in Hall as [? _].
      congruence.
    + rewrite Forall_cons, <- IH.
      destruct (AgenticMemory.findIndex p (pre ++ x :: l)); simpl.
      * split; [intros [= ->]; by split|]. intros [_ [= ->]]. done.
      * split; [discriminate|]. by intros [_ ?].
Qed.

Section RemoveDuplicates.
Import AgenticMemory.

(** An element is kept exactly when no earlier element has its id. *)
Lemma first_of_fresh (pre : list Memory) (x : Memory) (l : list Memory) :
  first_of (pre ++ x :: l) x (length pre) = true
  ↔ mem_id x ∉ mem_id <$> pre.
Proof.
  unfold first_of. rewrite bool_decide_eq_true.
  split.
  - intros Hfirst. symmetry in Hfirst.
    apply findIndex_first in Hfirst; [|by apply bool_decide_eq_true].
    intros Hin. apply list_elem_of_fmap in Hin as (y & Hid & Hy).
    rewrite Forall_forall in Hfirst. apply Hfirst in Hy.
    apply bool_decide_eq_false in Hy. congruence.
  - intros Hfresh. symmetry.
    apply findIndex_first; [by apply bool_decide_eq_true|].
    apply Forall_forall. intros y Hy. apply bool_decide_eq_false.
    intros Hid. apply Hfresh. rewrite <- Hid. by apply list_elem_of_fmap_2.
Qed.

Lemma filter_from_subset {A} (p : A → nat → bool) (index : nat) (l : list A)
    (x : A) :
  x ∈ AgenticMemory.filter_from p index l → x ∈ l.
Proof.
  revert index. induction l as [|y l IH]; intros index; simpl; [done|].
  destruct (p y index); rewrite ?elem_of_cons; [intros [->|?]|]; eauto.
Qed.

Lemma filter_from_first_nodup (pre l : list Memory) :
  let kept :=
    AgenticMemory.filter_from (first_of (pre ++ l)) (length pre) l in
  NoDup (mem_id <$> kept)
  ∧ (∀ m, m ∈ kept → mem_id m ∉ mem_id <$> pre)
  ∧ (∀ m, m ∈ l → mem_id m ∈ mem_id <$> pre ∨ mem_id m ∈ mem_id <$> kept).
Proof.
  revert pre. induction l as [|x l IH]; intros pre; simpl.
  { split_and!; [constructor|by intros ? ?%elem_of_nil..]. }
  specialize (IH (pre ++ [x])).
  rewrite <- app_assoc, length_app, Nat.add_1_r in IH. simpl in IH.
  destruct IH as (Hnodup & Hfresh & Hcover).
  assert (Hpre : ∀ i, i ∈ mem_id <$> pre ++ [x]
                      ↔ i ∈ mem_id <$> pre ∨ i = mem_id x).
  { intros i. rewrite fmap_app, elem_of_app. simpl.
    by rewrite list_elem_of_singleton. }
  destruct (first_of (pre ++ x :: l) x (length pre)) eqn:Hkeep.
  - apply first_of_fresh in Hkeep. split_and!.
    + simpl. constructor; [|done].
      intros Hin. apply list_elem_of_fmap in Hin as (m & Hid & Hm).
      apply Hfresh in Hm. apply Hm, Hpre. by right.
    + intros m [->|Hm]%elem_of_cons; [done|].
      intros Hin. apply (Hfresh m Hm), Hpre. by left.
    + intros m [->|Hm]%elem_of_cons.
      * right. simpl. apply elem_of_cons. by left.
      * destruct (Hcover m Hm) as [[?| ->]%Hpre|?]; [by left|..];
          right; simpl; apply elem_of_cons; auto.
  - apply not_true_iff_false in Hkeep. rewrite first_of_fresh in Hkeep.
    apply dec_stable in Hkeep. split_and!.
    + done.
    + intros m Hm Hin. apply (Hfresh m Hm), Hpre. by left.
    + intros m [->|Hm]%elem_of_cons; [by left|].
      destruct (Hcover m Hm) as [[?| ->]%Hpre|?]; auto.
Qed.

Lemma removeDuplicates_spec (allMemories : list Memory) :
  NoDup (mem_id <$> AgenticMemory.removeDuplicates allMemories)
  ∧ (∀ m, m ∈ AgenticMemory.removeDuplicates allMemories → m ∈ allMemories)
  ∧ (∀ m, m ∈ allMemories →
          mem_id m ∈ mem_id <$> AgenticMemory.removeDuplicates allMemories).
Proof.
  destruct (filter_from_first_nodup [] allMemories) as (Hnodup & _ & Hcover).
  split_and!; [done|apply filter_from_subset|].
  intros m Hm. by destruct (Hcover m Hm) as [?%elem_of_nil|?].
Qed.

End RemoveDuplicates.

Lemma elem_of_concat {A} (x : A) (ls : list (list A)) :
  x ∈ concat ls ↔ ∃ l, x ∈ l ∧ l ∈ ls.
Proof.
  induction ls as [|l ls IH]; simpl.
  - split; [by intros ?%elem_of_nil|]. by intros (l & _ & ?%elem_of_nil).
  - rewrite elem_of_app, IH. split.
    + intros [Hx|(l' & Hx & Hl')]; eexists; (split; [eassumption|]).
      * by left.
      * by right.
    + intros (l' & Hx & [->|Hl']%elem_of_cons); eauto.
Qed.

Section Retriever.
Context (E : Env).

(** A run of the loop that returns has issued, fact by fact, one
    embedding request and one vector query, and has pushed each
    query's result onto the array; the collection is as before. *)
Lemma findSimilarMemories_loop_returns (facts : list string) (user : string)
    (allMemories ms : list Memory) (w w' : World) :
  AgenticMemory.findSimilarMemories_loop E facts user allMemories w
    = (Ok ms, w') →
  ms = allMemories ++ concat (neighbours E (store w) user <$> facts)
  ∧ trace w' = trace w ++ retriever_requests E user facts
  ∧ store w' = store w.
Proof.
  revert allMemories w. induction facts as [|fact facts IH];
    intros acc w; simpl.
  { intros [= <- <-]. by rewrite !app_nil_r. }
  unfold bind at 1. rewrite embedQuery_eq.
  destruct (fails E (trace w) (EvEmbed fact)); [done|].
  unfold bind at 1. rewrite searchMemories_vector_eq. simpl.
  destruct (fails E _ _); [done|].
  intros Hrun. apply IH in Hrun as (-> & -> & ->). simpl.
  split_and!; [|by rewrite <- !app_assoc|done].
  by rewrite <- app_assoc.
Qed.

(** When no request fails, the loop returns. *)
Lemma findSimilarMemories_loop_total (facts : list string) (user : string)
    (allMemories : list Memory) (w : World) :
  never_fails E →
  ∃ ms w',
    AgenticMemory.findSimilarMemories_loop E facts user allMemories w
      = (Ok ms, w').
Proof.
  intros Hnf. revert allMemories w. induction facts as [|fact facts IH];
    intros acc w; simpl.
  { by eexists _, _. }
  unfold bind at 1. rewrite embedQuery_eq, Hnf.
  unfold bind at 1. rewrite searchMemories_vector_eq. simpl. rewrite Hnf.
  apply IH.
Qed.

End Retriever.

(** C7: the retriever issues, for each fact in turn, one embedding
    request and one vector query with limit 5 and score threshold 0.5
    scoped to the user; what it returns is the union of the per-fact
    results with no identifier occurring twice.  It returns whenever
    no request fails. *)
Theorem retriever_queries_each_fact_and_deduplicates (E : Env)
    (facts : list string) (user : string) (w : World) :
  (never_fails E →
   is_ok (AgenticMemory.findSimilarMemories E facts user w).1 = true)
  ∧ ∀ candidates w',
      AgenticMemory.findSimilarMemories E facts user w = (Ok candidates, w') →
      trace w' = trace w ++ retriever_requests E user facts
      ∧ store w' = store w
      ∧ NoDup (mem_id <$> candidates)
      ∧ (∀ m, m ∈ candidates →
              ∃ fact, fact ∈ facts ∧ m ∈ neighbours E (store w) user fact)
      ∧ (∀ fact m, fact ∈ facts → m ∈ neighbours E (store w) user fact →
                   mem_id m ∈ mem_id <$> candidates).
Proof.
  unfold AgenticMemory.findSimilarMemories, bind. split.
  - intros Hnf.
    destruct (findSimilarMemories_loop_total E facts user [] w Hnf)
      as (ms & w' & ->). done.
  - intros candidates w'.
    destruct (AgenticMemory.findSimilarMemories_loop E facts user [] w)
      as [[ms|e] w1] eqn:Hloop; [|done].
    intros [= <- <-].
    apply findSimilarMemories_loop_returns in Hloop as (-> & Htrace & Hstore).
    simpl.
    destruct (removeDuplicates_spec
                (concat (neighbours E (store w) user <$> facts)))
      as (Hnodup & Hsub & Hcover).
    split_and!; [done..| |].
    + intros m Hm. apply Hsub, elem_of_concat in Hm as (l & Hm & Hl).
      apply list_elem_of_fmap in Hl as (fact & -> & Hfact). eauto.
    + intros fact m Hfact Hm. apply Hcover, elem_of_concat.
      eexists. split; [exact Hm|]. by apply list_elem_of_fmap_2.
Qed.

Lemma retriever_queries_each_fact_and_deduplicates_witness :
  let E := Sample.env [] [] Sample.never in
  let run :=
    AgenticMemory.findSimilarMemories E ["likes tea"; "likes coffee"] "alice"
      (Sample.world Sample.both) in
  is_ok run.1 = true
  ∧ trace run.2 =
      [EvEmbed "likes tea"; EvSearch "alice" [9%Q] 5 (5 # 10)%Q;
       EvEmbed "likes coffee"; EvSearch "alice" [12%Q] 5 (5 # 10)%Q]
  ∧ NoDup (mem_id <$> returned run.1)
  ∧ mem_id <$> returned run.1 = ["m2"].
Proof.
  intros E run.
  destruct (retriever_queries_each_fact_and_deduplicates E
              ["likes tea"; "likes coffee"] "alice" (Sample.world Sample.both))
    as [Htotal Hreturns].
  split; [apply Htotal; intros h ev; reflexivity|].
  destruct (Hreturns (returned run.1) run.2 ltac:(vm_compute; reflexivity))
    as (Htrace & _ & Hnodup & _).
  split; [exact Htrace|]. split; [exact Hnodup|].
  vm_compute. reflexivity.
Defined.

(** ** The whole of [add] when no request fails *)

Section Total.
Context (E : Env) (Hnf : never_fails E).

(** The embedding loop of [add]: one request per fact, in order, and
    a map that holds the embedding of every fact. *)
Lemma embedFacts_total (facts : list string)
    (factEmbeddings : gmap string Vector) (w : World) :
  ∃ fe,
    AgenticMemory.embedFacts E facts factEmbeddings w =
      (Ok fe,
       {| store := store w; trace := trace w ++ (EvEmbed <$> facts);
          ticks := ticks w; uuids := uuids w |})
    ∧ ∀ fact, fe !! fact =
              if bool_decide (fact ∈ facts) then Some (embedding E fact)
              else factEmbeddings !! fact.
Proof.
  revert factEmbeddings w. induction facts as [|f facts IH]; intros fe w;
    cbn [AgenticMemory.embedFacts].
  { exists fe. rewrite app_nil_r. split; [by destruct w|]. intros fact.
    by rewrite bool_decide_eq_false_2 by apply not_elem_of_nil. }
  unfold bind at 1. rewrite embedQuery_eq, Hnf.
  destruct (IH (<[f := embedding E f]> fe) (record_event (EvEmbed f) w))
    as (fe' & -> & Hfe').
  exists fe'. cbn [record_event store trace ticks uuids fmap list_fmap].
  rewrite <- app_assoc. split; [done|].
  intros fact. rewrite Hfe'.
  destruct (decide (fact ∈ facts)) as [Hin|Hnin].
  - rewrite !bool_decide_eq_true_2; [done| |done]. by right.
  - rewrite (bool_decide_eq_false_2 _ Hnin).
    destruct (decide (f = fact)) as [->|Hne].
    + rewrite lookup_insert_eq, bool_decide_eq_true_2; [done|]. by left.
    + rewrite lookup_insert_ne by done.
      rewrite bool_decide_eq_false_2; [done|].
      intros [?|?]%elem_of_cons; congruence.
Qed.

Lemma applyMemoryAction_total (a : MemoryAction)
    (factEmbeddings : gmap string Vector) (context : MemoryMetadata)
    (w : World) :
  ∃ w', AgenticMemory.applyMemoryAction E a factEmbeddings context w
        = (Ok tt, w').
Proof.
  unfold AgenticMemory.applyMemoryAction.
  destruct (act_type a).
  - unfold bind, Date_now.
    destruct (factEmbeddings !! act_text a) as [v|].
    + rewrite addMemory_vector_eq. simpl. rewrite Hnf. by eexists.
    + rewrite addMemory_embed_eq. simpl. rewrite !Hnf. by eexists.
  - destruct (truthy (act_id a)); [|by eexists].
    unfold MemoryStorage.updateMemory, try_catch, bind, Date_now.
    cbn [AgenticMemory.content_update upd_content upd_metadata truthy].
    destruct (bool_decide (act_text a = "")); cbn [negb].
    + unfold ret. rewrite setPayload_eq. simpl. rewrite Hnf. by eexists.
    + rewrite embedQuery_eq, Hnf.
      unfold ret. rewrite setPayload_eq. simpl. rewrite Hnf. by eexists.
  - destruct (truthy (act_id a)); [|by eexists].
    rewrite deleteMemory_eq, Hnf. by eexists.
  - by eexists.
Qed.

Lemma applyMemoryActions_total (actions : list MemoryAction)
    (factEmbeddings : gmap string Vector) (context : MemoryMetadata)
    (w : World) :
  ∃ w', AgenticMemory.applyMemoryActions E actions factEmbeddings context w
        = (Ok tt, w').
Proof.
  revert w. induction actions as [|a actions IH]; intros w; simpl.
  { by eexists. }
  unfold bind.
  destruct (applyMemoryAction_total a factEmbeddings context w) as [w1 ->].
  apply IH.
Qed.

(** The stages of [add] before the applier. *)
Lemma add_stages (input : string) (context : MemoryMetadata) (w : World) :
  let facts := llm_facts E input in
  ∃ fe candidates w3,
    AgenticMemory.add E input context w =
      AgenticMemory.applyMemoryActions E
        (llm_actions E ((λ m, (mem_id m, mem_content m)) <$> candidates) facts)
        fe context w3
    ∧ store w3 = store w
    ∧ trace w3 =
        trace w ++ [EvExtractFacts input] ++ (EvEmbed <$> facts)
          ++ retriever_requests E (userId context) facts
          ++ [EvConsolidate ((λ m, (mem_id m, mem_content m)) <$> candidates)
                facts]
    ∧ ∀ fact, fact ∈ facts → fe !! fact = Some (embedding E fact).
Proof.
  intros facts. unfold AgenticMemory.add.
  unfold bind at 1. rewrite extractFacts_eq, Hnf. fold facts.
  unfold bind at 1.
  destruct (embedFacts_total facts ∅ (record_event (EvExtractFacts input) w))
    as (fe & -> & Hfe).
  unfold bind at 1, AgenticMemory.findSimilarMemories. unfold bind at 1.
  match goal with
  | |- context [AgenticMemory.findSimilarMemories_loop E facts ?u [] ?w2] =>
      destruct (findSimilarMemories_loop_total E facts u [] w2 Hnf)
        as (ms & w3 & Hloop)
  end.
  rewrite Hloop.
  apply findSimilarMemories_loop_returns in Hloop as (_ & Htrace & Hstore).
  unfold ret at 1. unfold bind at 1.
  rewrite generateConsolidationActions_eq, Hnf.
  eexists fe, _, _. split; [reflexivity|]. simpl in *.
  split; [done|]. split.
  - rewrite Htrace. by rewrite <- !app_assoc.
  - intros fact Hfact. by rewrite Hfe, bool_decide_eq_true_2.
Qed.

(** [add] returns normally, whatever the actions are. *)
Lemma add_total (input : string) (context : MemoryMetadata) (w : World) :
  ∃ w', AgenticMemory.add E input context w = (Ok tt, w').
Proof.
  destruct (add_stages input context w) as (fe & cands & w3 & -> & _).
  apply applyMemoryActions_total.
Qed.

End Total.

(** ** Identifiers named by actions *)

(** C1, as the code has it: no identifier is checked against the
    candidate set.  An UPDATE or DELETE whose identifier is missing or
    empty is skipped with no request and no error.  A DELETE that
    carries an identifier sends a delete request for that identifier,
    whatever the candidates were, and the point is removed when the
    request is answered.  An UPDATE that carries an identifier calls
    [updateMemory] for it, whatever the candidates were: a non-empty
    text is embedded first, and unless that embedding fails a
    [setPayload] request for the identifier is sent, which patches the
    point when it is answered.  [add] returns normally whenever no
    collaborator request fails. *)
Theorem identifiers_are_not_validated (E : Env) :
  (∀ a fe context w,
     act_type a = UPDATE ∨ act_type a = DELETE →
     truthy (act_id a) = false →
     AgenticMemory.applyMemoryAction E a fe context w = (Ok tt, w))
  ∧ (∀ a i fe context w,
       act_type a = DELETE → act_id a = Some i → i ≠ "" →
       AgenticMemory.applyMemoryAction E a fe context w =
         if fails E (trace w) (EvDelete i)
         then (Err (Wrapped "Failed to delete memory" (Collab (EvDelete i))),
               record_event (EvDelete i) w)
         else (Ok tt,
               set_store (delete i (store w)) (record_event (EvDelete i) w)))
  ∧ (∀ a i fe context w,
       let text := act_text a in
       let empty := bool_decide (text = "") in
       let embeds := if empty then [] else [EvEmbed text] in
       let patch := {| pp_updatedAt := clock E (ticks w);
                       pp_content := if empty then None else Some text;
                       pp_vector := if empty then None
                                    else Some (embedding E text);
                       pp_metadata := None |} in
       let sent evs s := {| store := s; trace := trace w ++ evs;
                            ticks := S (ticks w); uuids := uuids w |} in
       act_type a = UPDATE → act_id a = Some i → i ≠ "" →
       AgenticMemory.applyMemoryAction E a fe context w =
         if negb empty && fails E (trace w) (EvEmbed text)
         then (Err (Wrapped "Failed to update memory"
                      (Wrapped "Failed to generate embedding"
                         (Collab (EvEmbed text)))),
               sent [EvEmbed text] (store w))
         else if fails E (trace w ++ embeds) (EvSetPayload i patch)
         then (Err (Wrapped "Failed to update memory"
                      (Collab (EvSetPayload i patch))),
               sent (embeds ++ [EvSetPayload i patch]) (store w))
         else (Ok tt,
               sent (embeds ++ [EvSetPayload i patch])
                 (alter (apply_patch patch) i (store w))))
  ∧ (never_fails E →
     ∀ input context w,
       ∃ w', AgenticMemory.add E input context w = (Ok tt, w')).
Proof.
  split_and!.
  - intros a fe context w Htype Hid. apply applyMemoryAction_skip.
    unfold mutating. by destruct Htype as [-> | ->].
  - intros a i fe context w Htype Hid Hi.
    unfold AgenticMemory.applyMemoryAction. rewrite Htype, Hid. simpl.
    rewrite bool_decide_eq_false_2 by done. simpl.
    apply deleteMemory_eq.
  - intros a i fe context w text empty embeds patch sent Htype Hid Hi.
    unfold AgenticMemory.applyMemoryAction. rewrite Htype, Hid. simpl.
    rewrite bool_decide_eq_false_2 by done. simpl.
    unfold MemoryStorage.updateMemory, try_catch, bind, Date_now.
    cbn [AgenticMemory.content_update upd_content upd_metadata truthy].
    subst embeds patch. fold text. fold empty.
    destruct empty; cbn [negb andb].
    + unfold ret. rewrite setPayload_eq. simpl. rewrite app_nil_r.
      by destruct (fails E _ _).
    + rewrite embedQuery_eq. simpl.
      destruct (fails E (trace w) (EvEmbed text)); [done|].
      unfold ret. rewrite setPayload_eq. simpl.
      destruct (fails E _ _); unfold sent, throw, record_event, set_store;
        simpl; by rewrite <- app_assoc.
  - intros Hnf input context w. by apply add_total.
Qed.

Lemma identifiers_are_not_validated_witness :
  let E := Sample.env ["likes coffee"]
             [Sample.action DELETE (Some "m1") "likes coffee"] Sample.never in
  AgenticMemory.applyMemoryAction E
    (Sample.action DELETE (Some "m1") "likes coffee") ∅ Sample.alice
    (Sample.world Sample.bobs)
  = (Ok tt,
     set_store (delete "m1" Sample.bobs)
       (record_event (EvDelete "m1") (Sample.world Sample.bobs)))
  ∧ (AgenticMemory.applyMemoryAction E
       (Sample.action UPDATE (Some "m1") "") ∅ Sample.alice
       (Sample.world Sample.bobs)).2.(trace)
    = [EvSetPayload "m1"
         {| pp_updatedAt := 1000; pp_content := None; pp_vector := None;
            pp_metadata := None |}]
  ∧ ∃ w', AgenticMemory.add E "hello" Sample.alice (Sample.world Sample.bobs)
          = (Ok tt, w').
Proof.
  intros E.
  destruct (identifiers_are_not_validated E) as (_ & Hdelete & Hupdate & Hadd).
  split_and!.
  - rewrite (Hdelete (Sample.action DELETE (Some "m1") "likes coffee") "m1" ∅
               Sample.alice (Sample.world Sample.bobs) eq_refl eq_refl);
      [reflexivity|discriminate].
  - rewrite (Hupdate (Sample.action UPDATE (Some "m1") "") "m1" ∅
               Sample.alice (Sample.world Sample.bobs) eq_refl eq_refl);
      [reflexivity|discriminate].
  - apply Hadd. intros h ev. reflexivity.
Defined.

(** C1 as stated fails: alice's [add] finds no candidate, the model
    answers (DELETE, "m1"), and [add] returns normally after removing
    the memory "m1", which is not a candidate (it is bob's). *)
Lemma add_applies_unknown_identifier :
  ¬ validation_enforced
      (Sample.env ["likes coffee"]
         [Sample.action DELETE (Some "m1") "likes coffee"] Sample.never)
      "hello" Sample.alice (Sample.world Sample.bobs).
Proof.
  intros H.
  edestruct H as [Hfail _]; [reflexivity..| |discriminate Hfail].
  apply Exists_cons_hd. split; [by right|].
  intros i _ Hin. by apply elem_of_nil in Hin.
Qed.

(** ** Embedding requests during [add] *)

Lemma embed_calls_app (text : string) (evs1 evs2 : list Event) :
  embed_calls text (evs1 ++ evs2)
  = (embed_calls text evs1 + embed_calls text evs2)%nat.
Proof. unfold embed_calls. by rewrite filter_app, length_app. Qed.

Lemma embed_calls_loop (text : string) (facts : list string) :
  embed_calls text (EvEmbed <$> facts) = length (filter (eq text) facts).
Proof.
  unfold embed_calls. induction facts as [|f facts IH]; [done|].
  rewrite fmap_cons, !filter_cons. simpl.
  destruct (decide (f = text)) as [->|Hne].
  - rewrite !decide_True by (done || by apply bool_decide_pack). simpl.
    by rewrite IH.
  - by rewrite !decide_False
      by (congruence || (intros ?%bool_decide_unpack; congruence)).
Qed.

Lemma embed_calls_retriever (E : Env) (user text : string)
    (facts : list string) :
  embed_calls text (retriever_requests E user facts)
  = length (filter (eq text) facts).
Proof.
  unfold embed_calls. induction facts as [|f facts IH]; [done|].
  change (retriever_requests E user (f :: facts))
    with (EvEmbed f :: EvSearch user (embedding E f) 5 (5 # 10)%Q
            :: retriever_requests E user facts).
  rewrite (filter_cons _ (EvEmbed f)), (filter_cons _ (EvSearch _ _ _ _)).
  rewrite (filter_cons _ f). simpl.
  destruct (decide (f = text)) as [->|Hne].
  - rewrite !decide_True by (done || by apply bool_decide_pack). simpl.
    by rewrite IH.
  - by rewrite !decide_False
      by (congruence || (intros ?%bool_decide_unpack; congruence)).
Qed.

(** C8, as the code has it: when no request fails, the requests of
    [add] before the applier are the extraction, one embedding per
    fact from [add]'s own loop, then one embedding and one vector
    query per fact from the retriever, then the consolidation; so each
    fact text is embedded twice per occurrence.  An ADD whose text is
    one of the extracted facts issues a single upsert, with the vector
    that [add]'s loop put in the map, and no further embedding. *)
Theorem facts_embedded_twice_and_add_reuses_vector (E : Env)
    (input : string) (context : MemoryMetadata) (w : World) :
  never_fails E →
  let facts := llm_facts E input in
  ∃ fe candidates w3,
    let formatted := (λ m, (mem_id m, mem_content m)) <$> candidates in
    AgenticMemory.add E input context w =
      AgenticMemory.applyMemoryActions E (llm_actions E formatted facts)
        fe context w3
    ∧ trace w3 =
        trace w ++ [EvExtractFacts input] ++ (EvEmbed <$> facts)
          ++ retriever_requests E (userId context) facts
          ++ [EvConsolidate formatted facts]
    ∧ (∀ text, embed_calls text (drop (length (trace w)) (trace w3))
               = (2 * length (filter (eq text) facts))%nat)
    ∧ ∀ a w1,
        act_type a = ADD → act_text a ∈ facts →
        let v := embedding E (act_text a) in
        let i := uuid E (uuids w1) in
        fe !! act_text a = Some v
        ∧ ∃ p,
            AgenticMemory.applyMemoryAction E a fe context w1 =
              (Ok tt,
               {| store := <[i := {| pt_vector := v; pt_payload := p |}]>
                             (store w1);
                  trace := trace w1 ++ [EvUpsert i v p];
                  ticks := S (S (ticks w1)); uuids := S (uuids w1) |}).
Proof.
  intros Hnf facts.
  destruct (add_stages E Hnf input context w)
    as (fe & candidates & w3 & Hadd & _ & Htrace & Hfe).
  exists fe, candidates, w3. cbn zeta. split; [exact Hadd|].
  split; [exact Htrace|]. split.
  - intros text. rewrite Htrace, drop_app_length.
    rewrite !embed_calls_app, embed_calls_loop, embed_calls_retriever.
    fold facts. unfold embed_calls. simpl. lia.
  - intros a w1 Htype Htext. split; [by apply Hfe|].
    unfold AgenticMemory.applyMemoryAction. rewrite Htype.
    unfold bind, Date_now. rewrite (Hfe _ Htext).
    rewrite addMemory_vector_eq. simpl. rewrite Hnf. by eexists.
Qed.

Lemma facts_embedded_twice_and_add_reuses_vector_witness :
  let E := Sample.env ["likes coffee"]
             [Sample.action ADD None "likes coffee"] Sample.never in
  ∃ fe candidates w3,
    AgenticMemory.add E "hello" Sample.alice (Sample.world ∅) =
      AgenticMemory.applyMemoryActions E
        [Sample.action ADD None "likes coffee"] fe Sample.alice w3
    ∧ trace w3 =
        [EvExtractFacts "hello"; EvEmbed "likes coffee";
         EvEmbed "likes coffee"; EvSearch "alice" [12%Q] 5 (5 # 10)%Q;
         EvConsolidate ((λ m, (mem_id m, mem_content m)) <$> candidates)
           ["likes coffee"]]
    ∧ fe !! "likes coffee" = Some [12%Q].
Proof.
  intros E.
  destruct (facts_embedded_twice_and_add_reuses_vector E "hello" Sample.alice
              (Sample.world ∅))
    as (fe & candidates & w3 & Hadd & Htrace & _ & Hreuse).
  { intros h ev. reflexivity. }
  exists fe, candidates, w3. split; [exact Hadd|]. split; [exact Htrace|].
  destruct (Hreuse (Sample.action ADD None "likes coffee") (Sample.world ∅))
    as [Hfe _]; [reflexivity|by left|exact Hfe].
Defined.

(** C8 as stated fails: with one fact extracted and one ADD decided,
    the fact's text is sent to the embedding model twice. *)
Lemma fact_is_embedded_twice :
  ¬ embedded_once
      (Sample.env ["likes coffee"]
         [Sample.action ADD None "likes coffee"] Sample.never)
      "hello" Sample.alice (Sample.world ∅).
Proof.
  intros H. specialize (H "likes coffee").
  assert (Hin : "likes coffee" ∈ ["likes coffee"]) by (by left).
  apply H in Hin. vm_compute in Hin. discriminate Hin.
Qed.

(** ** Timestamps of created memories *)

Section Stamps.
Context (E : Env) (context : MemoryMetadata).

Lemma stamped_weaken (lo hi lo' hi' : nat) (ev : Event) :
  (lo' ≤ lo)%nat → (hi ≤ hi')%nat →
  stamped E context lo hi ev → stamped E context lo' hi' ev.
Proof.
  intros Hlo Hhi. destruct ev; try done. simpl.
  intros (n & Hn & Hmeta). exists n. split; [lia|done].
Qed.

Lemma stamped_not_upsert (lo hi : nat) (ev : Event) :
  is_upsert ev = false → stamped E context lo hi ev.
Proof. by destruct ev. Qed.

Lemma stamps_read_only {A} (m : M A) : read_only m → stamps E context m.
Proof.
  intros Hm w r w' Hrun. apply Hm in Hrun as (_ & Ht & _ & evs & He & Hf).
  split; [lia|]. exists evs. split; [done|].
  eapply Forall_impl; [exact Hf|]. intros ev. apply stamped_not_upsert.
Qed.

Lemma stamps_bind {A B} (m : M A) (k : A → M B) :
  stamps E context m → (∀ a, stamps E context (k a)) →
  stamps E context (bind m k).
Proof.
  intros Hm Hk w r w'. unfold bind.
  destruct (m w) as [[a|e] w1] eqn:Hrun;
    apply Hm in Hrun as (Ht1 & evs1 & He1 & Hf1).
  - intros Hrun'. apply Hk in Hrun' as (Ht2 & evs2 & He2 & Hf2).
    split; [lia|]. exists (evs1 ++ evs2).
    rewrite He2, He1, app_assoc. split; [done|].
    apply Forall_app. split.
    + eapply Forall_impl; [exact Hf1|]. intros ev.
      apply stamped_weaken; lia.
    + eapply Forall_impl; [exact Hf2|]. intros ev.
      apply stamped_weaken; lia.
  - intros [= <- <-]. split; [done|]. by exists evs1.
Qed.

Ltac stamps_done w :=
  intros [= <- <-]; cbn [ticks trace record_event set_store];
  (split; [lia|]); rewrite <- ?app_assoc; eexists; (split; [reflexivity|]);
  repeat first [apply Forall_nil | apply Forall_cons; split];
  first [exact I | exists (ticks w); split; [lia|done]].

Lemma stamps_applyMemoryAction (a : MemoryAction)
    (factEmbeddings : gmap string Vector) :
  stamps E context
    (AgenticMemory.applyMemoryAction E a factEmbeddings context).
Proof.
  intros w r w'. unfold AgenticMemory.applyMemoryAction.
  destruct (act_type a).
  - unfold bind, Date_now.
    destruct (factEmbeddings !! act_text a) as [v|].
    + rewrite addMemory_vector_eq. cbn [ticks trace store uuids].
      destruct (fails E _ _); stamps_done w.
    + rewrite addMemory_embed_eq. cbn [ticks trace store uuids].
      destruct (fails E _ _); [rewrite app_nil_r; stamps_done w|].
      destruct (fails E _ _); stamps_done w.
  - destruct (truthy (act_id a)); [|intros [= <- <-]; split; [lia|];
      exists []; by rewrite app_nil_r].
    unfold MemoryStorage.updateMemory, try_catch, bind, Date_now.
    cbn [AgenticMemory.content_update upd_content upd_metadata truthy].
    destruct (bool_decide (act_text a = "")); cbn [negb].
    + unfold ret. rewrite setPayload_eq. cbn [ticks trace store uuids].
      destruct (fails E _ _); stamps_done w.
    + rewrite embedQuery_eq.
      destruct (fails E _ _); [stamps_done w|].
      unfold ret. rewrite setPayload_eq. cbn [ticks trace store uuids].
      destruct (fails E _ _); stamps_done w.
  - destruct (truthy (act_id a)); [|intros [= <- <-]; split; [lia|];
      exists []; by rewrite app_nil_r].
    rewrite deleteMemory_eq.
    destruct (fails E _ _); stamps_done w.
  - intros [= <- <-]. split; [lia|]. exists []. by rewrite app_nil_r.
Qed.

Lemma stamps_applyMemoryActions (actions : list MemoryAction)
    (factEmbeddings : gmap string Vector) :
  stamps E context
    (AgenticMemory.applyMemoryActions E actions factEmbeddings context).
Proof.
  induction actions as [|a actions IH]; simpl.
  - apply stamps_read_only, read_only_ret.
  - apply stamps_bind; [apply stamps_applyMemoryAction|]. intros _. exact IH.
Qed.

Lemma stamps_add (input : string) :
  stamps E context (AgenticMemory.add E input context).
Proof.
  unfold AgenticMemory.add.
  apply stamps_bind; [apply stamps_read_only; auto with mem|]. intros facts.
  apply stamps_bind; [apply stamps_read_only; auto with mem|]. intros fe.
  apply stamps_bind; [apply stamps_read_only; auto with mem|]. intros old.
  apply stamps_bind; [apply stamps_read_only; auto with mem|]. intros actions.
  apply stamps_applyMemoryActions.
Qed.

End Stamps.

Lemma applyMemoryActions_context (E : Env) (actions : list MemoryAction)
    (factEmbeddings : gmap string Vector) (c1 c2 : MemoryMetadata) (w : World) :
  userId c1 = userId c2 →
  AgenticMemory.applyMemoryActions E actions factEmbeddings c1 w
  = AgenticMemory.applyMemoryActions E actions factEmbeddings c2 w.
Proof.
  intros Hu. revert w. induction actions as [|a actions IH]; intros w; simpl.
  { done. }
  unfold bind.
  assert (AgenticMemory.applyMemoryAction E a factEmbeddings c1 w
          = AgenticMemory.applyMemoryAction E a factEmbeddings c2 w) as ->.
  { unfold AgenticMemory.applyMemoryAction. by rewrite Hu. }
  destruct (AgenticMemory.applyMemoryAction E a factEmbeddings c2 w)
    as [[[]|e] w1]; [apply IH|done].
Qed.

(** A scrolled record is a stored point whose [metadata.timestamp]
    lies in the range. *)
Lemma qdrant_scroll_stored (s : gmap string Point) (user : string)
    (startDate endDate : Z) (limit : nat) (r : Record_) :
  r ∈ qdrant_scroll s user startDate endDate limit →
  ∃ pt, s !! rec_id r = Some pt
        ∧ rec_payload r = pt_payload pt
        ∧ startDate ≤ timestamp (pl_metadata (pt_payload pt)) ≤ endDate.
Proof.
  unfold qdrant_scroll. intros Hr.
  apply list_elem_of_fmap in Hr as ([i pt] & -> & Hip).
  apply (subseteq_take limit) in Hip.
  apply list_elem_of_filter in Hip as [Hp Hin].
  apply elem_of_map_to_list in Hin.
  apply andb_prop_elim in Hp as [_ Hr]. unfold match_range in Hr.
  apply andb_prop_elim in Hr as [H1 H2].
  apply Is_true_true, Z.leb_le in H1. apply Is_true_true, Z.leb_le in H2.
  exists pt. by split_and!.
Qed.

(** A stored point of the user whose [metadata.timestamp] lies in the
    range is scrolled, as long as the limit does not cut the listing. *)
Lemma qdrant_scroll_complete (s : gmap string Point) (user : string)
    (startDate endDate : Z) (limit : nat) (i : string) (pt : Point) :
  s !! i = Some pt →
  owner pt = user →
  startDate ≤ timestamp (pl_metadata (pt_payload pt)) ≤ endDate →
  (size s ≤ limit)%nat →
  to_record (i, pt) ∈ qdrant_scroll s user startDate endDate limit.
Proof.
  intros Hi Hown Hrange Hsize. unfold qdrant_scroll.
  apply list_elem_of_fmap_2. rewrite take_ge.
  - apply list_elem_of_filter. split; [|by apply elem_of_map_to_list].
    apply andb_prop_intro. split.
    + by apply bool_decide_pack.
    + unfold match_range. simpl. apply andb_prop_intro.
      split; apply Is_true_true, Z.leb_le; lia.
  - etrans; [apply length_filter|]. by rewrite length_map_to_list.
Qed.



(** * Further properties of the storage layer and of the pipeline *)

(** ** Round trips through the collection *)

(** X1: A memory that [addMemory] has stored is what [getMemory] returns
    under the identifier [addMemory] gave back: the content and the
    metadata as handed in, both timestamps the clock reading taken by
    [addMemory], and no vector, since [getMemory] does not ask for
    one.  The indexed vector is the one handed in, or else the
    embedding of the content. *)
Theorem addMemory_then_getMemory (E : Env) (memory : NewMemory)
    (w w' : World) (i : string) :
  MemoryStorage.addMemory E memory w = (Ok i, w') →
  fails E (trace w') (EvRetrieve i) = false →
  i = uuid E (uuids w)
  ∧ (MemoryStorage.getMemory E i w').1 =
      Ok (Some {| mem_id := i;
                  mem_content := new_content memory;
                  mem_metadata := new_metadata memory;
                  mem_vector := None;
                  mem_createdAt := clock E (ticks w);
                  mem_updatedAt := clock E (ticks w) |})
  ∧ pt_vector <$> store w' !! i =
      Some (default (embedding E (new_content memory)) (new_vector memory)).
Proof.
  destruct memory as [[v|] content meta]; simpl.
  - rewrite addMemory_vector_eq. simpl.
    destruct (fails E _ _); [done|]. intros [= <- <-] Hget.
    rewrite getMemory_eq, Hget. simpl. by rewrite lookup_insert_eq.
  - rewrite addMemory_embed_eq. simpl.
    destruct (fails E _ _); [done|]. destruct (fails E _ _); [done|].
    intros [= <- <-] Hget.
    rewrite getMemory_eq, Hget. simpl. by rewrite lookup_insert_eq.
Qed.

Lemma addMemory_then_getMemory_witness :
  let E := Sample.env [] [] Sample.never in
  let memory := {| new_vector := None; new_content := "likes tea";
                   new_metadata := Sample.alice |} in
  let w' := (MemoryStorage.addMemory E memory (Sample.world Sample.bobs)).2 in
  "uuid-0" = uuid E 0
  ∧ (MemoryStorage.getMemory E "uuid-0" w').1 =
      Ok (Some {| mem_id := "uuid-0"; mem_content := "likes tea";
                  mem_metadata := Sample.alice; mem_vector := None;
                  mem_createdAt := 1000; mem_updatedAt := 1000 |})
  ∧ pt_vector <$> store w' !! "uuid-0" = Some [9%Q].
Proof.
  intros E memory w'.
  apply (addMemory_then_getMemory E memory (Sample.world Sample.bobs) w'
           "uuid-0"); reflexivity.
Defined.

(** X3: After a [deleteMemory] that returned, [getMemory] answers null for
    that identifier, whether or not a memory had it; every other
    memory is as before, and deleting an identifier that no memory has
    changes nothing. *)
Theorem deleteMemory_then_getMemory (E : Env) (i : string) (w w' : World) :
  MemoryStorage.deleteMemory E i w = (Ok tt, w') →
  (MemoryStorage.getMemory E i w').1 = Ok None
  ∧ (∀ j, j ≠ i → store w' !! j = store w !! j)
  ∧ (store w !! i = None → store w' = store w).
Proof.
  rewrite deleteMemory_eq. destruct (fails E _ _); [done|].
  intros [= <-]. split_and!.
  - rewrite getMemory_eq. simpl. rewrite lookup_delete_eq.
    by destruct (fails E _ _).
  - intros j Hj. simpl. by rewrite lookup_delete_ne.
  - intros Hi. simpl. by apply delete_id.
Qed.

Lemma deleteMemory_then_getMemory_witness :
  let E := Sample.env [] [] Sample.never in
  let w' := (MemoryStorage.deleteMemory E "m2" (Sample.world Sample.both)).2 in
  (MemoryStorage.getMemory E "m2" w').1 = Ok None
  ∧ (∀ j, j ≠ "m2" → store w' !! j = Sample.both !! j)
  ∧ (Sample.both !! "m2" = None → store w' = Sample.both).
Proof.
  intros E w'.
  apply (deleteMemory_then_getMemory E "m2" (Sample.world Sample.both) w').
  reflexivity.
Defined.

(** X4: After an [update] with non-empty content that returned, [get]
    answers the memory under the same identifier with the new content,
    its metadata and creation time as before, and [updatedAt] the
    clock reading taken by the update; every other memory is as
    before. *)
Theorem update_then_get (E : Env) (i content : string) (pt : Point)
    (w w' : World) :
  content ≠ "" →
  store w !! i = Some pt →
  AgenticMemory.update E i content w = (Ok tt, w') →
  fails E (trace w') (EvRetrieve i) = false →
  (AgenticMemory.get E i w').1 =
    Ok (Some {| mem_id := i;
                mem_content := content;
                mem_metadata := pl_metadata (pt_payload pt);
                mem_vector := None;
                mem_createdAt := pl_createdAt (pt_payload pt);
                mem_updatedAt := clock E (ticks w) |})
  ∧ ∀ j, j ≠ i → store w' !! j = store w !! j.
Proof.
  intros Hcontent Hpt. unfold AgenticMemory.update, AgenticMemory.get.
  unfold MemoryStorage.updateMemory, try_catch, bind, Date_now.
  cbn [AgenticMemory.content_update upd_content upd_metadata truthy].
  rewrite bool_decide_eq_false_2 by done. cbn [negb].
  rewrite embedQuery_eq. destruct (fails E _ _); [done|].
  unfold ret. rewrite setPayload_eq. simpl.
  destruct (fails E _ _); [done|]. intros [= <-] Hget. split.
  - rewrite getMemory_eq, Hget. simpl. rewrite lookup_alter_eq, Hpt. done.
  - intros j Hj. simpl. by rewrite lookup_alter_ne.
Qed.

Lemma update_then_get_witness :
  let E := Sample.env [] [] Sample.never in
  let w' := (AgenticMemory.update E "m2" "likes green tea"
               (Sample.world Sample.both)).2 in
  (AgenticMemory.get E "m2" w').1 =
    Ok (Some {| mem_id := "m2"; mem_content := "likes green tea";
                mem_metadata := {| userId := "alice"; timestamp := 600 |};
                mem_vector := None; mem_createdAt := 600;
                mem_updatedAt := 1000 |})
  ∧ ∀ j, j ≠ "m2" → store w' !! j = Sample.both !! j.
Proof.
  intros E w'.
  apply (update_then_get E "m2" "likes green tea"
           (Sample.point "alice" "likes tea" 600)
           (Sample.world Sample.both) w');
    [discriminate|reflexivity|reflexivity|reflexivity].
Defined.

(** ** What [updateMemory] keeps *)

(** Whatever its outcome, [updateMemory] either leaves the collection
    as it was or applies one patch to the point under [i]; a run that
    raised has left it as it was. *)
Lemma updateMemory_store (E : Env) (i : string) (updates : PartialMemory)
    (w w' : World) (r : Res unit) :
  MemoryStorage.updateMemory E i updates w = (r, w') →
  store w' = store w
  ∨ is_ok r = true
    ∧ ∃ p, pp_metadata p = upd_metadata updates
           ∧ pp_updatedAt p = clock E (ticks w)
           ∧ store w' = alter (apply_patch p) i (store w).
Proof.
  unfold MemoryStorage.updateMemory, try_catch, bind, Date_now.
  destruct (truthy (upd_content updates)).
  - rewrite embedQuery_eq.
    destruct (fails E _ _); [intros [= <- <-]; by left|].
    unfold ret. rewrite setPayload_eq. simpl.
    destruct (fails E _ _); intros [= <- <-]; [by left|].
    right. split; [done|].
    eexists {| pp_updatedAt := _; pp_content := _; pp_vector := _;
               pp_metadata := _ |}. by split_and!.
  - unfold ret. rewrite setPayload_eq. simpl.
    destruct (fails E _ _); intros [= <- <-]; [by left|].
    right. split; [done|].
    eexists {| pp_updatedAt := _; pp_content := _; pp_vector := _;
               pp_metadata := _ |}. by split_and!.
Qed.

(** X5: An [updateMemory] that carries no metadata never creates or
    removes a memory and never changes the owner, the metadata or the
    creation time of one, whether it returns or raises; when it raises
    the collection is untouched. *)
Theorem updateMemory_keeps_memories_and_owners (E : Env) (i : string)
    (updates : PartialMemory) (w w' : World) (r : Res unit) :
  upd_metadata updates = None →
  MemoryStorage.updateMemory E i updates w = (r, w') →
  (∀ j, pl_metadata ∘ pt_payload <$> store w' !! j
        = pl_metadata ∘ pt_payload <$> store w !! j)
  ∧ (∀ j, pl_createdAt ∘ pt_payload <$> store w' !! j
          = pl_createdAt ∘ pt_payload <$> store w !! j)
  ∧ (is_ok r = false → store w' = store w).
Proof.
  intros Hmeta Hrun.
  apply updateMemory_store in Hrun
    as [->|(Hok & p & Hp & _ & ->)]; [done|].
  rewrite Hmeta in Hp. split_and!.
  - intros j. destruct (decide (i = j)) as [<-|Hne].
    + rewrite lookup_alter_eq. destruct (store w !! i) as [pt|]; [|done].
      simpl. by rewrite Hp.
    + by rewrite lookup_alter_ne.
  - intros j. destruct (decide (i = j)) as [<-|Hne].
    + rewrite lookup_alter_eq. by destruct (store w !! i).
    + by rewrite lookup_alter_ne.
  - intros Hr. congruence.
Qed.

Lemma updateMemory_keeps_memories_and_owners_witness :
  let E := Sample.env [] [] Sample.never in
  let w := Sample.world Sample.both in
  let w' := (AgenticMemory.update E "m1" "bob likes coffee" w).2 in
  (∀ j, pl_metadata ∘ pt_payload <$> store w' !! j
        = pl_metadata ∘ pt_payload <$> store w !! j)
  ∧ (∀ j, pl_createdAt ∘ pt_payload <$> store w' !! j
          = pl_createdAt ∘ pt_payload <$> store w !! j)
  ∧ (is_ok (Ok tt : Res unit) = false → store w' = store w).
Proof.
  intros E w w'.
  apply (updateMemory_keeps_memories_and_owners E "m1"
           (AgenticMemory.content_update "bob likes coffee") w w' (Ok tt));
    reflexivity.
Defined.

(** X6: An [update] with the empty string is not an error and embeds
    nothing: the only request is a [setPayload] that carries the new
    [updatedAt], and the memory keeps its content. *)
Theorem update_with_empty_content (E : Env) (i : string) (pt : Point)
    (w : World) :
  let patch := {| pp_updatedAt := clock E (ticks w); pp_content := None;
                  pp_vector := None; pp_metadata := None |} in
  store w !! i = Some pt →
  fails E (trace w) (EvSetPayload i patch) = false →
  ∃ w', AgenticMemory.update E i "" w = (Ok tt, w')
        ∧ trace w' = trace w ++ [EvSetPayload i patch]
        ∧ store w' !! i =
            Some {| pt_vector := pt_vector pt;
                    pt_payload :=
                      {| pl_content := pl_content (pt_payload pt);
                         pl_metadata := pl_metadata (pt_payload pt);
                         pl_createdAt := pl_createdAt (pt_payload pt);
                         pl_updatedAt := clock E (ticks w);
                         pl_vector := pl_vector (pt_payload pt) |} |}.
Proof.
  intros patch Hpt Hok. unfold AgenticMemory.update.
  unfold MemoryStorage.updateMemory, try_catch, bind, Date_now. simpl.
  unfold ret. rewrite setPayload_eq. simpl. fold patch. rewrite Hok.
  eexists. split; [reflexivity|]. split; [done|]. simpl.
  by rewrite lookup_alter_eq, Hpt.
Qed.

Lemma update_with_empty_content_witness :
  let E := Sample.env [] [] Sample.never in
  let patch := {| pp_updatedAt := 1000; pp_content := None;
                  pp_vector := None; pp_metadata := None |} in
  ∃ w', AgenticMemory.update E "m1" "" (Sample.world Sample.bobs) = (Ok tt, w')
        ∧ trace w' = [EvSetPayload "m1" patch]
        ∧ store w' !! "m1" =
            Some {| pt_vector := [13%Q];
                    pt_payload :=
                      {| pl_content := "bob likes tea";
                         pl_metadata := {| userId := "bob"; timestamp := 500 |};
                         pl_createdAt := 500; pl_updatedAt := 1000;
                         pl_vector := None |} |}.
Proof.
  intros E patch.
  apply (update_with_empty_content E "m1" (Sample.point "bob" "bob likes tea" 500)
           (Sample.world Sample.bobs)); reflexivity.
Defined.

(** ** What a search returns *)

Lemma insert_ranked_perm (E : Env) (v : Vector) (x : string * Point)
    (l : list (string * Point)) :
  insert_ranked E v x l ≡ₚ x :: l.
Proof.
  induction l as [|y l IH]; simpl; [done|].
  destruct (Qle_bool _ _); [done|]. rewrite IH. apply Permutation_swap.
Qed.

Lemma rank_perm (E : Env) (v : Vector) (l : list (string * Point)) :
  rank E v l ≡ₚ l.
Proof.
  induction l as [|x l IH]; simpl; [done|].
  by rewrite insert_ranked_perm, IH.
Qed.

Lemma rec_id_to_record (l : list (string * Point)) :
  rec_id <$> (to_record <$> l) = l.*1.
Proof. rewrite <- list_fmap_compose. by apply list_fmap_ext. Qed.

Lemma qdrant_search_spec (E : Env) (s : gmap string Point) (user : string)
    (v : Vector) (limit : nat) (th : Q) :
  (length (qdrant_search E s user v limit th) ≤ limit)%nat
  ∧ NoDup (rec_id <$> qdrant_search E s user v limit th)
  ∧ ∀ r, r ∈ qdrant_search E s user v limit th →
         ∃ pt, s !! rec_id r = Some pt
               ∧ r = to_record (rec_id r, pt)
               ∧ owner pt = user
               ∧ Qle_bool th (score E v (pt_vector pt)) = true.
Proof.
  unfold qdrant_search. split_and!.
  - rewrite length_fmap, length_take. lia.
  - rewrite rec_id_to_record.
    eapply sublist_NoDup; [|apply fmap_sublist, sublist_take].
    rewrite rank_perm.
    eapply sublist_NoDup; [|apply fmap_sublist, sublist_filter].
    apply NoDup_fst_map_to_list.
  - intros r Hr. apply list_elem_of_fmap in Hr as ([i pt] & -> & Hip).
    apply (subseteq_take limit), elem_of_rank in Hip.
    apply list_elem_of_filter in Hip as [Hp Hin].
    apply elem_of_map_to_list in Hin.
    apply andb_prop_elim in Hp as [Hu Hs].
    apply bool_decide_unpack in Hu. apply Is_true_true in Hs.
    exists pt. by split_and!.
Qed.

(** X7: A search that returns gives at most [limit] memories (10 when no
    limit is given), no identifier twice; each of them is stored in
    the collection under its identifier with that content and
    metadata, belongs to the user of the query, and scores at least
    the threshold (0.3 when none is given) against the query vector,
    which is the vector handed in or else the embedding of the query
    text. *)
Theorem searchMemories_returns_stored_matches (E : Env)
    (params : MemorySearchParams) (w w' : World) (ms : list Memory) :
  MemoryStorage.searchMemories E params w = (Ok ms, w') →
  let v := default (embedding E (default "" (sp_query params)))
             (sp_vector params) in
  (length ms ≤ default 10 (sp_limit params))%nat
  ∧ NoDup (mem_id <$> ms)
  ∧ ∀ m, m ∈ ms →
         ∃ pt, store w !! mem_id m = Some pt
               ∧ m = memory_of (mem_id m) pt
               ∧ owner pt = sp_userId params
               ∧ Qle_bool (default (3 # 10)%Q (sp_threshold params))
                   (score E v (pt_vector pt)) = true.
Proof.
  unfold MemoryStorage.searchMemories, try_catch, bind.
  destruct (negb (bool_decide (is_Some (sp_vector params)))
            && negb (truthy (sp_query params))); [done|].
  assert (Hspec : ∀ v limit th,
    let rs := qdrant_search E (store w) (sp_userId params) v limit th in
    (length (MemoryStorage.to_memory <$> rs) ≤ limit)%nat
    ∧ NoDup (mem_id <$> (MemoryStorage.to_memory <$> rs))
    ∧ ∀ m, m ∈ MemoryStorage.to_memory <$> rs →
           ∃ pt, store w !! mem_id m = Some pt
                 ∧ m = memory_of (mem_id m) pt
                 ∧ owner pt = sp_userId params
                 ∧ Qle_bool th (score E v (pt_vector pt)) = true).
  { intros v limit th rs.
    destruct (qdrant_search_spec E (store w) (sp_userId params) v limit th)
      as (Hlen & Hnodup & Hstored). fold rs in Hlen, Hnodup, Hstored.
    split_and!.
    - by rewrite length_fmap.
    - rewrite <- list_fmap_compose. exact Hnodup.
    - intros m Hm. apply list_elem_of_fmap in Hm as (r & -> & Hr).
      destruct (Hstored r Hr) as (pt & Hlook & Hrec & Hown & Hscore).
      exists pt. simpl. split_and!; [done| |done..].
      unfold memory_of. by rewrite <- Hrec. }
  destruct (sp_vector params) as [v|]; simpl.
  - unfold ret at 1. rewrite search_eq.
    destruct (fails E _ _); [done|]. intros [= <- <-]. apply Hspec.
  - rewrite embedQuery_eq. destruct (fails E _ _); [done|].
    rewrite search_eq. destruct (fails E _ _); [done|].
    intros [= <- <-]. apply Hspec.
Qed.

Lemma searchMemories_returns_stored_matches_witness :
  let E := Sample.env [] [] Sample.never in
  let params := {| sp_userId := "alice"; sp_query := Some "tea";
                   sp_vector := None; sp_limit := None;
                   sp_threshold := None |} in
  let ms := returned
              (MemoryStorage.searchMemories E params
                 (Sample.world Sample.both)).1 in
  (length ms ≤ 10)%nat
  ∧ NoDup (mem_id <$> ms)
  ∧ ∀ m, m ∈ ms →
         ∃ pt, Sample.both !! mem_id m = Some pt
               ∧ m = memory_of (mem_id m) pt
               ∧ owner pt = "alice"
               ∧ Qle_bool (3 # 10)%Q (score E [3%Q] (pt_vector pt)) = true.
Proof.
  intros E params ms.
  apply (searchMemories_returns_stored_matches E params
           (Sample.world Sample.both)
           (MemoryStorage.searchMemories E params
              (Sample.world Sample.both)).2 ms).
  vm_compute. reflexivity.
Defined.

(** X8: A search given neither a vector nor a non-empty query text raises
    at once: nothing is sent to the embedding model or to the store,
    and the world is as before.  [search] with the empty string is
    such a call. *)
Theorem searchMemories_needs_vector_or_query (E : Env)
    (params : MemorySearchParams) (w : World) :
  sp_vector params = None →
  truthy (sp_query params) = false →
  MemoryStorage.searchMemories E params w =
    (Err (Wrapped "Failed to search memories"
            (Thrown "Either vector or query must be provided")), w).
Proof.
  intros Hv Hq. unfold MemoryStorage.searchMemories, try_catch.
  by rewrite Hv, Hq.
Qed.

Lemma searchMemories_needs_vector_or_query_witness :
  AgenticMemory.search (Sample.env [] [] Sample.never) "" Sample.alice
    (Sample.world Sample.both) =
    (Err (Wrapped "Failed to search memories"
            (Thrown "Either vector or query must be provided")),
     Sample.world Sample.both).
Proof.
  apply (searchMemories_needs_vector_or_query
           (Sample.env [] [] Sample.never)
           {| sp_userId := "alice"; sp_query := Some "";
              sp_vector := None; sp_limit := Some 10%nat;
              sp_threshold := Some (3 # 10)%Q |}
           (Sample.world Sample.both)); reflexivity.
Defined.

Lemma qdrant_scroll_spec (s : gmap string Point) (user : string)
    (startDate endDate : Z) (limit : nat) :
  (length (qdrant_scroll s user startDate endDate limit) ≤ limit)%nat
  ∧ NoDup (rec_id <$> qdrant_scroll s user startDate endDate limit)
  ∧ ∀ r, r ∈ qdrant_scroll s user startDate endDate limit →
         ∃ pt, s !! rec_id r = Some pt
               ∧ r = to_record (rec_id r, pt)
               ∧ owner pt = user
               ∧ startDate ≤ timestamp (pl_metadata (pt_payload pt)) ≤ endDate.
Proof.
  unfold qdrant_scroll. split_and!.
  - rewrite length_fmap, length_take. lia.
  - rewrite rec_id_to_record.
    eapply sublist_NoDup; [|apply fmap_sublist, sublist_take].
    eapply sublist_NoDup; [|apply fmap_sublist, sublist_filter].
    apply NoDup_fst_map_to_list.
  - intros r Hr. apply list_elem_of_fmap in Hr as ([i pt] & -> & Hip).
    apply (subseteq_take limit) in Hip.
    apply list_elem_of_filter in Hip as [Hp Hin].
    apply elem_of_map_to_list in Hin.
    apply andb_prop_elim in Hp as [Hu Hr]. apply bool_decide_unpack in Hu.
    unfold match_range in Hr. apply andb_prop_elim in Hr as [H1 H2].
    apply Is_true_true, Z.leb_le in H1. apply Is_true_true, Z.leb_le in H2.
    exists pt. by split_and!.
Qed.

(** X9: A range listing that returns gives at most [limit] memories (50
    when no limit is given), no identifier twice; each of them is
    stored under its identifier, belongs to the user, and has a
    [metadata.timestamp] inside the closed range.  A range whose end
    lies before its start lists nothing. *)
Theorem getMemoriesByDateRange_returns_stored_in_range (E : Env)
    (user : string) (startDate endDate : Z) (limit : option nat)
    (w w' : World) (ms : list Memory) :
  MemoryStorage.getMemoriesByDateRange E user startDate endDate limit w
    = (Ok ms, w') →
  (length ms ≤ default 50 limit)%nat
  ∧ NoDup (mem_id <$> ms)
  ∧ (∀ m, m ∈ ms →
          ∃ pt, store w !! mem_id m = Some pt
                ∧ m = memory_of (mem_id m) pt
                ∧ owner pt = user
                ∧ startDate ≤ timestamp (mem_metadata m) ≤ endDate)
  ∧ (endDate < startDate → ms = []).
Proof.
  rewrite getMemoriesByDateRange_eq. destruct (fails E _ _); [done|].
  intros [= <- <-].
  destruct (qdrant_scroll_spec (store w) user startDate endDate
              (default 50%nat limit)) as (Hlen & Hnodup & Hspec).
  assert (Hstored : ∀ m,
    m ∈ MemoryStorage.to_memory <$>
          qdrant_scroll (store w) user startDate endDate (default 50%nat limit) →
    ∃ pt, store w !! mem_id m = Some pt
          ∧ m = memory_of (mem_id m) pt
          ∧ owner pt = user
          ∧ startDate ≤ timestamp (mem_metadata m) ≤ endDate).
  { intros m Hm. apply list_elem_of_fmap in Hm as (r & -> & Hr).
    destruct (Hspec r Hr) as (pt & Hlook & Hrec & Hown & Hrange).
    exists pt. simpl. split; [done|].
    split; [unfold memory_of; by rewrite <- Hrec|].
    split; [done|]. by rewrite Hrec. }
  split_and!.
  - by rewrite length_fmap.
  - by rewrite <- list_fmap_compose.
  - exact Hstored.
  - intros Hempty.
    destruct (MemoryStorage.to_memory <$> _) as [|m ms] eqn:Hms; [done|].
    destruct (Hstored m) as (_ & _ & _ & _ & Hrange); [by left|]. lia.
Qed.

Lemma getMemoriesByDateRange_returns_stored_in_range_witness :
  let E := Sample.env [] [] Sample.never in
  let ms := returned
              (MemoryStorage.getMemoriesByDateRange E "alice" 0 1000 None
                 (Sample.world Sample.both)).1 in
  (length ms ≤ 50)%nat
  ∧ NoDup (mem_id <$> ms)
  ∧ (∀ m, m ∈ ms →
          ∃ pt, Sample.both !! mem_id m = Some pt
                ∧ m = memory_of (mem_id m) pt
                ∧ owner pt = "alice"
                ∧ 0 ≤ timestamp (mem_metadata m) ≤ 1000)
  ∧ (1000 < 0 → ms = []).
Proof.
  intros E ms.
  apply (getMemoriesByDateRange_returns_stored_in_range E "alice" 0 1000 None
           (Sample.world Sample.both)
           (MemoryStorage.getMemoriesByDateRange E "alice" 0 1000 None
              (Sample.world Sample.both)).2 ms).
  vm_compute. reflexivity.
Defined.

(** ** Exceptions of the storage layer *)

Lemma try_catch_wraps {A} (m : M A) (msg : string) (w w' : World) (e : Exn) :
  try_catch m (λ error, throw (Wrapped msg error)) w = (Err e, w') →
  ∃ cause, e = Wrapped msg cause.
Proof.
  unfold try_catch, throw.
  destruct (m w) as [[a|cause] w1]; [done|]. intros [= <- <-]. by eexists.
Qed.

(** X10: Whatever a method of the storage layer raises carries that
    method's own message in front of the cause; [getMemory] raises
    nothing. *)
Theorem storage_errors_carry_the_method_message (E : Env) :
  (∀ query w e w',
     MemoryStorage.embedQuery E query w = (Err e, w') →
     e = Wrapped "Failed to generate embedding" (Collab (EvEmbed query)))
  ∧ (∀ memory w e w',
       MemoryStorage.addMemory E memory w = (Err e, w') →
       ∃ cause, e = Wrapped "Failed to add memory" cause)
  ∧ (∀ i updates w e w',
       MemoryStorage.updateMemory E i updates w = (Err e, w') →
       ∃ cause, e = Wrapped "Failed to update memory" cause)
  ∧ (∀ i w e w',
       MemoryStorage.deleteMemory E i w = (Err e, w') →
       e = Wrapped "Failed to delete memory" (Collab (EvDelete i)))
  ∧ (∀ params w e w',
       MemoryStorage.searchMemories E params w = (Err e, w') →
       ∃ cause, e = Wrapped "Failed to search memories" cause)
  ∧ (∀ user startDate endDate limit w e w',
       MemoryStorage.getMemoriesByDateRange E user startDate endDate limit w
         = (Err e, w') →
       ∃ cause, e = Wrapped "Failed to get memories by date range" cause)
  ∧ (∀ i w, is_ok (MemoryStorage.getMemory E i w).1 = true).
Proof.
  pose proof @try_catch_wraps as Hwrap.
  split_and!.
  - intros query w e w'. rewrite embedQuery_eq.
    destruct (fails E _ _); [|done]. by intros [= <- <-].
  - intros memory w e w'. apply Hwrap.
  - intros i updates w e w'. apply Hwrap.
  - intros i w e w'. rewrite deleteMemory_eq.
    destruct (fails E _ _); [|done]. by intros [= <- <-].
  - intros params w e w'. apply Hwrap.
  - intros user startDate endDate limit w e w'. apply Hwrap.
  - intros i w. by rewrite getMemory_eq.
Qed.

(** ** Reads leave the world alone *)

Lemma read_only_getMemory (E : Env) (i : string) :
  read_only (MemoryStorage.getMemory E i).
Proof.
  unfold MemoryStorage.getMemory, client.retrieve. read_only_steps.
Qed.

Lemma read_only_getMemoriesByDateRange (E : Env) (user : string)
    (startDate endDate : Z) (limit : option nat) :
  read_only
    (MemoryStorage.getMemoriesByDateRange E user startDate endDate limit).
Proof.
  unfold MemoryStorage.getMemoriesByDateRange, client.scroll. read_only_steps.
Qed.

(** X11: [get], [search], [getMemoriesByDateRange] and the retriever never
    change the collection, read the clock or draw a UUID, whether they
    return or raise; all they leave behind are logged requests, none
    of them an upsert. *)
Theorem reads_leave_the_collection_alone (E : Env) :
  (∀ i, read_only (AgenticMemory.get E i))
  ∧ (∀ query context, read_only (AgenticMemory.search E query context))
  ∧ (∀ user startDate endDate limit,
       read_only
         (AgenticMemory.getMemoriesByDateRange E user startDate endDate limit))
  ∧ (∀ facts user,
       read_only (AgenticMemory.findSimilarMemories E facts user)).
Proof.
  split_and!.
  - intros i. apply read_only_getMemory.
  - intros query context. apply read_only_searchMemories.
  - intros user startDate endDate limit.
    apply read_only_getMemoriesByDateRange.
  - intros facts user. apply read_only_findSimilarMemories.
Qed.

(** ** What one pass of the applier can do *)

(** Whatever its outcome, one pass leaves the collection as it was, or
    inserts one point stamped for the caller, or patches one point
    without touching its metadata, or deletes one point. *)
Lemma applyMemoryAction_effect (E : Env) (a : MemoryAction)
    (fe : gmap string Vector) (context : MemoryMetadata) (w w' : World)
    (r : Res unit) :
  AgenticMemory.applyMemoryAction E a fe context w = (r, w') →
  (store w' = store w ∧ (ticks w ≤ ticks w' ≤ ticks w + 2)%nat)
  ∨ (∃ v p, store w' = <[uuid E (uuids w) :=
                           {| pt_vector := v; pt_payload := p |}]> (store w)
            ∧ pl_metadata p = {| userId := userId context;
                                 timestamp := clock E (ticks w) |}
            ∧ pl_createdAt p = clock E (S (ticks w))
            ∧ pl_updatedAt p = clock E (S (ticks w))
            ∧ ticks w' = S (S (ticks w)))
  ∨ (∃ i p, pp_metadata p = None
            ∧ pp_updatedAt p = clock E (ticks w)
            ∧ store w' = alter (apply_patch p) i (store w)
            ∧ ticks w' = S (ticks w))
  ∨ (∃ i, store w' = delete i (store w) ∧ ticks w' = ticks w).
Proof.
  unfold AgenticMemory.applyMemoryAction.
  destruct (act_type a).
  - unfold bind, Date_now.
    destruct (fe !! act_text a) as [v|].
    + rewrite addMemory_vector_eq. simpl.
      destruct (fails E _ _); intros [= <- <-]; simpl.
      * left. split; [done|lia].
      * right. left. eexists _, _. by split_and!.
    + rewrite addMemory_embed_eq. simpl.
      destruct (fails E _ _); [intros [= <- <-]; left; simpl; split; [done|lia]|].
      destruct (fails E _ _); intros [= <- <-]; simpl.
      * left. split; [done|lia].
      * right. left. eexists _, _. by split_and!.
  - destruct (truthy (act_id a)); [|intros [= <- <-]; left; split; [done|lia]].
    unfold MemoryStorage.updateMemory, try_catch, bind, Date_now.
    cbn [AgenticMemory.content_update upd_content upd_metadata truthy].
    destruct (bool_decide (act_text a = "")); cbn [negb].
    + unfold ret. rewrite setPayload_eq. simpl.
      destruct (fails E _ _); intros [= <- <-]; simpl.
      * left. split; [done|lia].
      * right. right. left.
        eexists _, {| pp_updatedAt := _; pp_content := _; pp_vector := _;
                      pp_metadata := _ |}. by split_and!.
    + rewrite embedQuery_eq.
      destruct (fails E _ _); [intros [= <- <-]; left; simpl; split; [done|lia]|].
      unfold ret. rewrite setPayload_eq. simpl.
      destruct (fails E _ _); intros [= <- <-]; simpl.
      * left. split; [done|lia].
      * right. right. left.
        eexists _, {| pp_updatedAt := _; pp_content := _; pp_vector := _;
                      pp_metadata := _ |}. by split_and!.
  - destruct (truthy (act_id a)); [|intros [= <- <-]; left; split; [done|lia]].
    rewrite deleteMemory_eq.
    destruct (fails E _ _); intros [= <- <-]; simpl.
    + left. split; [done|lia].
    + right. right. right. by eexists.
  - intros [= <- <-]. left. split; [done|lia].
Qed.

(** What the applier raises is what [addMemory], [updateMemory] or
    [deleteMemory] raised. *)
Lemma applyMemoryActions_errors (E : Env) (actions : list MemoryAction)
    (fe : gmap string Vector) (context : MemoryMetadata) (w w' : World)
    (e : Exn) :
  AgenticMemory.applyMemoryActions E actions fe context w = (Err e, w') →
  ∃ cause, e = Wrapped "Failed to add memory" cause
           ∨ e = Wrapped "Failed to update memory" cause
           ∨ e = Wrapped "Failed to delete memory" cause.
Proof.
  revert w. induction actions as [|a actions IH]; intros w; simpl; [done|].
  unfold bind at 1.
  destruct (AgenticMemory.applyMemoryAction E a fe context w)
    as [[[]|e1] w1] eqn:Hpass; [apply IH|].
  intros [= <- <-]. revert Hpass. unfold AgenticMemory.applyMemoryAction.
  destruct (act_type a).
  - unfold bind, Date_now.
    destruct (MemoryStorage.addMemory E _ _) as [[i|e2] w2] eqn:Hadd; [done|].
    intros [= <- <-]. apply try_catch_wraps in Hadd as [cause ->]. eauto.
  - destruct (truthy (act_id a)); [|done].
    intros [cause ->]%try_catch_wraps. eauto.
  - destruct (truthy (act_id a)); [|done].
    intros [cause ->]%try_catch_wraps. eauto.
  - done.
Qed.

(** ** Failures of [add] before the applier *)

(** X12: When [add] raises, either the exception is one of the applier's
    (it carries the message of [addMemory], [updateMemory] or
    [deleteMemory]), or the call has changed nothing: the collection
    is as it was, and neither the clock nor the UUID source was
    consulted.  So a failure of extraction, of an embedding, of a
    vector query or of consolidation leaves no trace in storage. *)
Theorem add_fails_before_applier_without_effect (E : Env) (input : string)
    (context : MemoryMetadata) (w w' : World) (e : Exn) :
  AgenticMemory.add E input context w = (Err e, w') →
  (∃ cause, e = Wrapped "Failed to add memory" cause
            ∨ e = Wrapped "Failed to update memory" cause
            ∨ e = Wrapped "Failed to delete memory" cause)
  ∨ (store w' = store w ∧ ticks w' = ticks w ∧ uuids w' = uuids w).
Proof.
  unfold AgenticMemory.add. unfold bind at 1.
  destruct (AgenticMemory.extractFacts E input w) as [[facts|e1] w1] eqn:H1;
    apply read_only_extractFacts in H1 as (Hs1 & Ht1 & Hu1 & _);
    [|intros [= <- <-]; by right].
  unfold bind at 1.
  destruct (AgenticMemory.embedFacts E facts ∅ w1) as [[fe|e2] w2] eqn:H2;
    apply read_only_embedFacts in H2 as (Hs2 & Ht2 & Hu2 & _);
    [|intros [= <- <-]; right; split_and!; congruence].
  unfold bind at 1.
  destruct (AgenticMemory.findSimilarMemories E facts (userId context) w2)
    as [[old|e3] w3] eqn:H3;
    apply read_only_findSimilarMemories in H3 as (Hs3 & Ht3 & Hu3 & _);
    [|intros [= <- <-]; right; split_and!; congruence].
  unfold bind at 1.
  destruct (AgenticMemory.generateConsolidationActions E old facts w3)
    as [[actions|e4] w4] eqn:H4;
    apply read_only_generateConsolidationActions in H4 as (Hs4 & Ht4 & Hu4 & _);
    [|intros [= <- <-]; right; split_and!; congruence].
  intros Happly. left. by eapply applyMemoryActions_errors.
Qed.

Lemma add_fails_before_applier_without_effect_witness :
  let E := Sample.env ["likes coffee"]
             [Sample.action ADD None "likes coffee"]
             Sample.consolidate_fails in
  let run := AgenticMemory.add E "hello" Sample.alice
               (Sample.world Sample.both) in
  (∃ cause, Collab (EvConsolidate [("m2", "likes tea")] ["likes coffee"])
              = Wrapped "Failed to add memory" cause
            ∨ Collab (EvConsolidate [("m2", "likes tea")] ["likes coffee"])
              = Wrapped "Failed to update memory" cause
            ∨ Collab (EvConsolidate [("m2", "likes tea")] ["likes coffee"])
              = Wrapped "Failed to delete memory" cause)
  ∨ (store run.2 = Sample.both ∧ ticks run.2 = 0%nat ∧ uuids run.2 = 0%nat).
Proof.
  intros E run.
  apply (add_fails_before_applier_without_effect E "hello" Sample.alice
           (Sample.world Sample.both) run.2).
  vm_compute. reflexivity.
Defined.

(** ** Owners across [add] *)

Lemma owners_kept_refl (E : Env) (user : string) (lo hi : nat)
    (s : gmap string Point) :
  owners_kept E user lo hi s s.
Proof. intros i pt Hi. right. by exists pt. Qed.

Lemma owners_kept_trans (E : Env) (user : string) (lo mid hi : nat)
    (s1 s2 s3 : gmap string Point) :
  (lo ≤ mid ≤ hi)%nat →
  owners_kept E user lo mid s1 s2 → owners_kept E user mid hi s2 s3 →
  owners_kept E user lo hi s1 s3.
Proof.
  intros Hmid H12 H23 i pt3 Hi.
  destruct (H23 i pt3 Hi) as [[Ho (n & Hn & ->)]|(pt2 & Hi2 & Ho2)].
  { left. split; [done|]. exists n. split; [lia|done]. }
  destruct (H12 i pt2 Hi2) as [[Ho (n & Hn & ->)]|(pt1 & Hi1 & Ho1)].
  - left. split; [congruence|]. exists n. split; [lia|done].
  - right. exists pt1. split; [done|congruence].
Qed.

(** Whatever its outcome, one pass draws at most one UUID; it leaves
    the collection as it was, or inserts one point of the caller under
    the UUID it drew, or patches one point without touching its
    metadata, or deletes one point. *)
Lemma applyMemoryAction_draws (E : Env) (a : MemoryAction)
    (fe : gmap string Vector) (context : MemoryMetadata) (w w' : World)
    (r : Res unit) :
  AgenticMemory.applyMemoryAction E a fe context w = (r, w') →
  (uuids w ≤ uuids w')%nat
  ∧ ((store w' = store w)
     ∨ (∃ pt, store w' = <[uuid E (uuids w) := pt]> (store w)
              ∧ owner pt = userId context
              ∧ uuids w' = S (uuids w))
     ∨ (∃ i p, pp_metadata p = None
               ∧ store w' = alter (apply_patch p) i (store w))
     ∨ (∃ i, store w' = delete i (store w))).
Proof.
  unfold AgenticMemory.applyMemoryAction.
  destruct (act_type a).
  - unfold bind, Date_now.
    destruct (fe !! act_text a) as [v|].
    + rewrite addMemory_vector_eq. simpl.
      destruct (fails E _ _); intros [= <- <-]; simpl; (split; [lia|]).
      * by left.
      * right. left. by eexists.
    + rewrite addMemory_embed_eq. simpl.
      destruct (fails E _ _);
        [intros [= <- <-]; simpl; split; [lia|by left]|].
      destruct (fails E _ _); intros [= <- <-]; simpl; (split; [lia|]).
      * by left.
      * right. left. by eexists.
  - destruct (truthy (act_id a)); [|intros [= <- <-]; split; [lia|by left]].
    intros Hrun. split.
    + revert Hrun.
      unfold MemoryStorage.updateMemory, try_catch, bind, Date_now.
      destruct (truthy (upd_content _)).
      * rewrite embedQuery_eq. destruct (fails E _ _);
          [by intros [= <- <-]|].
        unfold ret. rewrite setPayload_eq. simpl.
        by destruct (fails E _ _); intros [= <- <-].
      * unfold ret. rewrite setPayload_eq. simpl.
        by destruct (fails E _ _); intros [= <- <-].
    + apply updateMemory_store in Hrun as [Hs|(_ & p & Hp & _ & Hs)].
      * by left.
      * right. right. left. by exists (default "" (act_id a)), p.
  - destruct (truthy (act_id a)); [|intros [= <- <-]; split; [lia|by left]].
    rewrite deleteMemory_eq.
    destruct (fails E _ _); intros [= <- <-]; simpl; (split; [lia|]).
    + by left.
    + right. right. right. by eexists.
  - intros [= <- <-]. split; [lia|by left].
Qed.

Lemma applyMemoryAction_owners (E : Env) (a : MemoryAction)
    (fe : gmap string Vector) (context : MemoryMetadata) (w w' : World)
    (r : Res unit) :
  AgenticMemory.applyMemoryAction E a fe context w = (r, w') →
  (uuids w ≤ uuids w')%nat
  ∧ owners_kept E (userId context) (uuids w) (uuids w') (store w) (store w').
Proof.
  intros Hrun. apply applyMemoryAction_draws in Hrun
    as [Hle [->|[(pt & -> & Hown & Hu)|[(i & p & Hp & ->)|(i & ->)]]]];
    (split; [done|]).
  - apply owners_kept_refl.
  - intros j pt' [[<- <-]|[_ Hj]]%lookup_insert_Some.
    + left. split; [done|]. exists (uuids w). split; [lia|done].
    + right. by exists pt'.
  - intros j pt' Hj. right. destruct (decide (i = j)) as [<-|Hne].
    + rewrite lookup_alter_eq in Hj.
      destruct (store w !! i) as [pt|]; [|done]. injection Hj as <-.
      exists pt. split; [done|]. unfold owner. simpl. by rewrite Hp.
    + rewrite lookup_alter_ne in Hj by done. by exists pt'.
  - intros j pt' [_ Hj]%lookup_delete_Some. right. by exists pt'.
Qed.

Lemma applyMemoryActions_owners (E : Env) (actions : list MemoryAction)
    (fe : gmap string Vector) (context : MemoryMetadata) (w w' : World)
    (r : Res unit) :
  AgenticMemory.applyMemoryActions E actions fe context w = (r, w') →
  (uuids w ≤ uuids w')%nat
  ∧ owners_kept E (userId context) (uuids w) (uuids w') (store w) (store w').
Proof.
  revert w. induction actions as [|a actions IH]; intros w; simpl.
  { intros [= <- <-]. split; [done|apply owners_kept_refl]. }
  unfold bind at 1.
  destruct (AgenticMemory.applyMemoryAction E a fe context w)
    as [[[]|e1] w1] eqn:Hpass;
    apply applyMemoryAction_owners in Hpass as [Hle1 Hpass].
  - intros [Hle2 Hrest]%IH. split; [lia|].
    by eapply (owners_kept_trans _ _ _ (uuids w1)).
  - by intros [= <- <-].
Qed.

(** X13: Whatever the model answers and whether [add] returns or raises,
    every memory in the collection afterwards either belongs to the
    caller and sits under a UUID drawn during this call, or was there
    before under the same identifier with the same owner.  So [add]
    creates memories for its caller only, and a memory whose
    identifier is not drawn again during the call keeps its owner; an
    owner changes only when a drawn UUID collides with an existing
    identifier, whose memory the upsert then replaces. *)
Theorem add_creates_for_its_caller_only (E : Env) (input : string)
    (context : MemoryMetadata) (w w' : World) (r : Res unit) :
  AgenticMemory.add E input context w = (r, w') →
  (uuids w ≤ uuids w')%nat
  ∧ owners_kept E (userId context) (uuids w) (uuids w') (store w) (store w')
  ∧ ∀ i pt pt',
      (∀ n, (uuids w ≤ n < uuids w')%nat → uuid E n ≠ i) →
      store w !! i = Some pt → store w' !! i = Some pt' →
      owner pt' = owner pt.
Proof.
  intros Hrun.
  assert ((uuids w ≤ uuids w')%nat
          ∧ owners_kept E (userId context) (uuids w) (uuids w')
              (store w) (store w')) as [Hle Hkept].
  { revert Hrun. unfold AgenticMemory.add. unfold bind at 1.
    destruct (AgenticMemory.extractFacts E input w) as [[facts|e1] w1] eqn:H1;
      apply read_only_extractFacts in H1 as (Hs1 & _ & Hu1 & _);
      [|intros [= <- <-]; rewrite Hs1, Hu1;
        split; [done|apply owners_kept_refl]].
    unfold bind at 1.
    destruct (AgenticMemory.embedFacts E facts ∅ w1) as [[fe|e2] w2] eqn:H2;
      apply read_only_embedFacts in H2 as (Hs2 & _ & Hu2 & _);
      [|intros [= <- <-]; rewrite Hs2, Hs1, Hu2, Hu1;
        split; [done|apply owners_kept_refl]].
    unfold bind at 1.
    destruct (AgenticMemory.findSimilarMemories E facts (userId context) w2)
      as [[old|e3] w3] eqn:H3;
      apply read_only_findSimilarMemories in H3 as (Hs3 & _ & Hu3 & _);
      [|intros [= <- <-]; rewrite Hs3, Hs2, Hs1, Hu3, Hu2, Hu1;
        split; [done|apply owners_kept_refl]].
    unfold bind at 1.
    destruct (AgenticMemory.generateConsolidationActions E old facts w3)
      as [[actions|e4] w4] eqn:H4;
      apply read_only_generateConsolidationActions in H4
        as (Hs4 & _ & Hu4 & _);
      [|intros [= <- <-]; rewrite Hs4, Hs3, Hs2, Hs1, Hu4, Hu3, Hu2, Hu1;
        split; [done|apply owners_kept_refl]].
    intros Happly. apply applyMemoryActions_owners in Happly.
    by rewrite Hs4, Hs3, Hs2, Hs1, Hu4, Hu3, Hu2, Hu1 in Happly. }
  split_and!; [done..|].
  intros i pt pt' Hfresh Hi Hi'.
  destruct (Hkept i pt' Hi') as [[_ (n & Hn & ->)]|(pt0 & Hi0 & Ho)].
  - by destruct (Hfresh n Hn).
  - congruence.
Qed.

Lemma add_creates_for_its_caller_only_witness :
  let E := Sample.env ["likes coffee"]
             [Sample.action ADD None "likes coffee";
              Sample.action UPDATE (Some "m1") "likes coffee"]
             Sample.never in
  let w' := (AgenticMemory.add E "hello" Sample.alice
               (Sample.world Sample.both)).2 in
  (0 ≤ uuids w')%nat
  ∧ owners_kept E "alice" 0 (uuids w') Sample.both (store w')
  ∧ ∀ i pt pt',
      (∀ n, (0 ≤ n < uuids w')%nat → uuid E n ≠ i) →
      Sample.both !! i = Some pt → store w' !! i = Some pt' →
      owner pt' = owner pt.
Proof.
  intros E w'.
  apply (add_creates_for_its_caller_only E "hello" Sample.alice
           (Sample.world Sample.both) w' (Ok tt)).
  vm_compute. reflexivity.
Defined.

(** ** Creation and modification times *)

Section Timed.
Context (E : Env) (Hclock : clock_monotone E).

Lemma timed_later (w w' : World) :
  store w' = store w → (ticks w ≤ ticks w')%nat → timed E w → timed E w'.
Proof.
  intros Hs Ht Hw i pt Hi. rewrite Hs in Hi.
  destruct (Hw i pt Hi) as [Hcu Hun]. split; [done|].
  etrans; [exact Hun|]. by apply Hclock.
Qed.

Lemma timed_patch (w w' : World) (i : string) (p : PayloadPatch) :
  pp_updatedAt p = clock E (ticks w) →
  store w' = alter (apply_patch p) i (store w) →
  (ticks w ≤ ticks w')%nat →
  timed E w → timed E w'.
Proof.
  intros Hp Hs Ht Hw j pt' Hj. rewrite Hs in Hj.
  assert (Hnow : clock E (ticks w) ≤ clock E (ticks w')) by by apply Hclock.
  destruct (decide (i = j)) as [<-|Hne].
  - rewrite lookup_alter_eq in Hj.
    destruct (store w !! i) as [pt|] eqn:Hi; [|done]. injection Hj as <-.
    destruct (Hw i pt Hi) as [Hcu Hun]. simpl. rewrite Hp. lia.
  - rewrite lookup_alter_ne in Hj by done.
    destruct (Hw j pt' Hj) as [Hcu Hun]. lia.
Qed.

Lemma applyMemoryAction_timed (a : MemoryAction) (fe : gmap string Vector)
    (context : MemoryMetadata) (w w' : World) (r : Res unit) :
  AgenticMemory.applyMemoryAction E a fe context w = (r, w') →
  timed E w → timed E w'.
Proof.
  intros Hrun Hw. apply applyMemoryAction_effect in Hrun
    as [[Hs Ht]|[(v & p & Hs & _ & Hc & Hu & Ht)
       |[(i & p & _ & Hp & Hs & Ht)|(i & Hs & Ht)]]].
  - apply (timed_later w); [done|lia|done].
  - intros j pt' Hj. rewrite Hs in Hj.
    apply lookup_insert_Some in Hj as [[_ <-]|[_ Hj]]; simpl.
    + rewrite Hc, Hu, Ht. split; [done|]. apply Hclock. lia.
    + destruct (Hw j pt' Hj) as [Hcu Hun]. split; [done|].
      etrans; [exact Hun|]. apply Hclock. lia.
  - apply (timed_patch w w' i p); [done..|lia|done].
  - intros j pt' Hj. rewrite Hs in Hj.
    apply lookup_delete_Some in Hj as [_ Hj]. rewrite Ht. exact (Hw j pt' Hj).
Qed.

Lemma applyMemoryActions_timed (actions : list MemoryAction)
    (fe : gmap string Vector) (context : MemoryMetadata) (w w' : World)
    (r : Res unit) :
  AgenticMemory.applyMemoryActions E actions fe context w = (r, w') →
  timed E w → timed E w'.
Proof.
  revert w. induction actions as [|a actions IH]; intros w; simpl.
  { by intros [= <- <-]. }
  unfold bind at 1.
  destruct (AgenticMemory.applyMemoryAction E a fe context w)
    as [[[]|e1] w1] eqn:Hpass; intros Hrest Hw;
    pose proof (applyMemoryAction_timed _ _ _ _ _ _ Hpass Hw) as Hw1.
  - by eapply IH.
  - by injection Hrest as <- <-.
Qed.

Lemma read_only_timed {A} (m : M A) (w w' : World) (r : Res A) :
  read_only m → m w = (r, w') → timed E w → timed E w'.
Proof.
  intros Hm Hrun. apply Hm in Hrun as (Hs & Ht & _).
  apply timed_later; [done|lia].
Qed.

Lemma updateMemory_timed (i : string) (updates : PartialMemory)
    (w w' : World) (r : Res unit) :
  MemoryStorage.updateMemory E i updates w = (r, w') →
  timed E w → timed E w'.
Proof.
  intros Hrun.
  assert (Ht : ticks w' = S (ticks w)).
  { revert Hrun.
    unfold MemoryStorage.updateMemory, try_catch, bind, Date_now.
    destruct (truthy (upd_content updates)).
    - rewrite embedQuery_eq. destruct (fails E _ _); [by intros [= <- <-]|].
      unfold ret. rewrite setPayload_eq. simpl.
      by destruct (fails E _ _); intros [= <- <-].
    - unfold ret. rewrite setPayload_eq. simpl.
      by destruct (fails E _ _); intros [= <- <-]. }
  apply updateMemory_store in Hrun as [Hs|(_ & p & _ & Hp & Hs)].
  - apply timed_later; [done|lia].
  - apply (timed_patch w w' i p); [done..|lia].
Qed.

Lemma deleteMemory_timed (i : string) (w w' : World) (r : Res unit) :
  MemoryStorage.deleteMemory E i w = (r, w') →
  timed E w → timed E w'.
Proof.
  rewrite deleteMemory_eq.
  destruct (fails E _ _); intros [= <- <-] Hw; [by apply (timed_later w)|].
  intros j pt Hj. simpl in Hj. apply lookup_delete_Some in Hj as [_ Hj].
  exact (Hw j pt Hj).
Qed.

Lemma add_timed (input : string) (context : MemoryMetadata) (w w' : World)
    (r : Res unit) :
  AgenticMemory.add E input context w = (r, w') →
  timed E w → timed E w'.
Proof.
  intros Hrun Hw. revert Hrun. unfold AgenticMemory.add. unfold bind at 1.
  destruct (AgenticMemory.extractFacts E input w) as [[facts|e1] w1] eqn:H1;
    pose proof (read_only_timed _ _ _ _ (read_only_extractFacts E input) H1 Hw)
      as Hw1; [|by intros [= <- <-]].
  unfold bind at 1.
  destruct (AgenticMemory.embedFacts E facts ∅ w1) as [[fe|e2] w2] eqn:H2;
    pose proof (read_only_timed _ _ _ _ (read_only_embedFacts E facts ∅) H2 Hw1)
      as Hw2; [|by intros [= <- <-]].
  unfold bind at 1.
  destruct (AgenticMemory.findSimilarMemories E facts (userId context) w2)
    as [[old|e3] w3] eqn:H3;
    pose proof (read_only_timed _ _ _ _
                  (read_only_findSimilarMemories E facts (userId context))
                  H3 Hw2) as Hw3; [|by intros [= <- <-]].
  unfold bind at 1.
  destruct (AgenticMemory.generateConsolidationActions E old facts w3)
    as [[actions|e4] w4] eqn:H4;
    pose proof (read_only_timed _ _ _ _
                  (read_only_generateConsolidationActions E old facts)
                  H4 Hw3) as Hw4; [|by intros [= <- <-]].
  intros Happly. by eapply applyMemoryActions_timed.
Qed.

End Timed.

(** X14: With a clock that never runs backwards, every operation of the
    public surface keeps the stored timestamps in order: if no memory
    in the collection was modified before its creation or later than
    the next clock reading, the same holds after [add], [search],
    [getMemoriesByDateRange], [get], [update] and [delete], whether
    they return or raise. *)
Theorem operations_keep_timestamps_ordered (E : Env) (w : World) :
  clock_monotone E →
  timed E w →
  (∀ input context, timed E (AgenticMemory.add E input context w).2)
  ∧ (∀ context op, timed E (perform E context op w).2).
Proof.
  intros Hclock Hw. split.
  - intros input context.
    destruct (AgenticMemory.add E input context w) as [r w'] eqn:Hrun.
    by eapply add_timed.
  - intros context op.
    destruct (perform E context op w) as [r w'] eqn:Hrun. simpl.
    revert Hrun. destruct op; simpl.
    + intros Hrun. eapply read_only_timed; [done| |exact Hrun|done].
      apply read_only_searchMemories.
    + intros Hrun. eapply read_only_timed; [done| |exact Hrun|done].
      apply read_only_getMemoriesByDateRange.
    + unfold bind, AgenticMemory.get.
      destruct (MemoryStorage.getMemory E i w) as [[m|e] w1] eqn:Hget;
        intros [= <- <-];
        (eapply read_only_timed; [done| |exact Hget|done]);
        apply read_only_getMemory.
    + unfold bind, AgenticMemory.update.
      destruct (MemoryStorage.updateMemory E i _ w) as [[[]|e] w1] eqn:Hupd;
        intros [= <- <-]; by eapply updateMemory_timed.
    + unfold bind, AgenticMemory.delete.
      destruct (MemoryStorage.deleteMemory E i w) as [[[]|e] w1] eqn:Hdel;
        intros [= <- <-]; by eapply deleteMemory_timed.
Qed.

Lemma operations_keep_timestamps_ordered_witness :
  let E := Sample.env ["likes coffee"]
             [Sample.action ADD None "likes coffee";
              Sample.action UPDATE (Some "m2") "likes coffee"]
             Sample.never in
  (∀ input context,
     timed E (AgenticMemory.add E input context (Sample.world Sample.both)).2)
  ∧ (∀ context op,
       timed E (perform E context op (Sample.world Sample.both)).2).
Proof.
  intros E.
  apply (operations_keep_timestamps_ordered E (Sample.world Sample.both)).
  - intros n m Hnm. simpl. lia.
  - intros i pt Hi. unfold Sample.world, Sample.both, Sample.bobs in Hi.
    simpl in Hi.
    apply lookup_insert_Some in Hi as [[_ <-]|[_ Hi]]; [simpl; lia|].
    apply lookup_singleton_Some in Hi as [_ <-]. simpl. lia.
Defined.

(** ** The duplicate filter and the candidate set *)

Lemma filter_from_sublist {A} (p : A → nat → bool) (index : nat) (l : list A) :
  AgenticMemory.filter_from p index l `sublist_of` l.
Proof.
  revert index. induction l as [|x l IH]; intros index; simpl; [done|].
  destruct (p x index); [by apply sublist_skip|by apply sublist_cons].
Qed.

Lemma filter_from_first_occurrence (pre l : list Memory) (m : Memory) :
  m ∈ AgenticMemory.filter_from (AgenticMemory.first_of (pre ++ l))
        (length pre) l →
  ∃ l1 l2, l = l1 ++ m :: l2 ∧ mem_id m ∉ mem_id <$> pre ++ l1.
Proof.
  revert pre. induction l as [|x l IH]; intros pre; simpl.
  { by intros ?%elem_of_nil. }
  specialize (IH (pre ++ [x])).
  rewrite <- app_assoc, length_app, Nat.add_1_r in IH. simpl in IH.
  destruct (AgenticMemory.first_of (pre ++ x :: l) x (length pre)) eqn:Hkeep.
  - intros [->|Hm]%elem_of_cons.
    + exists [], l. rewrite app_nil_r. split; [done|].
      by apply first_of_fresh in Hkeep.
    + destruct (IH Hm) as (l1 & l2 & -> & Hfresh).
      exists (x :: l1), l2. split; [done|].
      by rewrite <- app_assoc in Hfresh.
  - intros Hm. destruct (IH Hm) as (l1 & l2 & -> & Hfresh).
    exists (x :: l1), l2. split; [done|].
    by rewrite <- app_assoc in Hfresh.
Qed.

Lemma filter_from_first_id (pre l : list Memory) :
  NoDup (mem_id <$> pre ++ l) →
  AgenticMemory.filter_from (AgenticMemory.first_of (pre ++ l)) (length pre) l
  = l.
Proof.
  revert pre. induction l as [|x l IH]; intros pre Hnodup; simpl; [done|].
  specialize (IH (pre ++ [x])).
  rewrite <- app_assoc, length_app, Nat.add_1_r in IH. simpl in IH.
  rewrite IH by done.
  assert (Hkeep : AgenticMemory.first_of (pre ++ x :: l) x (length pre) = true).
  { apply first_of_fresh. rewrite fmap_app in Hnodup.
    apply NoDup_app in Hnodup as (_ & Hdisj & _).
    intros Hin. apply (Hdisj _ Hin). simpl. by left. }
  by rewrite Hkeep.
Qed.

(** X15: The duplicate filter keeps, in their order, exactly the first
    memory of each identifier: what it returns is a sublist of its
    input in which no identifier occurs twice and every identifier of
    the input occurs, each kept memory has no earlier memory with its
    identifier in the input, an input without repeated identifiers is
    returned as it is, and filtering twice is filtering once. *)
Theorem removeDuplicates_keeps_first_occurrences (allMemories : list Memory) :
  AgenticMemory.removeDuplicates allMemories `sublist_of` allMemories
  ∧ NoDup (mem_id <$> AgenticMemory.removeDuplicates allMemories)
  ∧ (∀ m, m ∈ allMemories →
          mem_id m ∈ mem_id <$> AgenticMemory.removeDuplicates allMemories)
  ∧ (∀ m, m ∈ AgenticMemory.removeDuplicates allMemories →
          ∃ l1 l2, allMemories = l1 ++ m :: l2 ∧ mem_id m ∉ mem_id <$> l1)
  ∧ (NoDup (mem_id <$> allMemories) →
     AgenticMemory.removeDuplicates allMemories = allMemories)
  ∧ AgenticMemory.removeDuplicates (AgenticMemory.removeDuplicates allMemories)
    = AgenticMemory.removeDuplicates allMemories.
Proof.
  destruct (removeDuplicates_spec allMemories) as (Hnodup & _ & Hcover).
  split_and!.
  - apply filter_from_sublist.
  - exact Hnodup.
  - exact Hcover.
  - intros m Hm. by apply (filter_from_first_occurrence [] allMemories m).
  - apply (filter_from_first_id [] allMemories).
  - by apply (filter_from_first_id [] (AgenticMemory.removeDuplicates allMemories)).
Qed.

Lemma neighbours_length (E : Env) (s : gmap string Point) (user : string)
    (facts : list string) :
  (length (concat (neighbours E s user <$> facts)) ≤ 5 * length facts)%nat.
Proof.
  induction facts as [|fact facts IH]; [simpl; lia|].
  rewrite fmap_cons. cbn [concat length]. rewrite length_app.
  assert (length (neighbours E s user fact) ≤ 5)%nat as Hlen.
  { unfold neighbours. rewrite length_fmap.
    apply (qdrant_search_spec E s user (embedding E fact) 5 (5 # 10)%Q). }
  lia.
Qed.

(** X16: The candidate set the retriever hands on holds at most five
    memories per fact, and each candidate is a memory of the user,
    stored in the collection under its identifier, that scores at
    least 0.5 against the embedding of one of the facts. *)
Theorem candidates_are_the_users_and_bounded (E : Env) (facts : list string)
    (user : string) (w w' : World) (candidates : list Memory) :
  AgenticMemory.findSimilarMemories E facts user w = (Ok candidates, w') →
  (length candidates ≤ 5 * length facts)%nat
  ∧ ∀ m, m ∈ candidates →
         ∃ pt fact,
           store w !! mem_id m = Some pt
           ∧ m = memory_of (mem_id m) pt
           ∧ owner pt = user
           ∧ fact ∈ facts
           ∧ Qle_bool (5 # 10)%Q
               (score E (embedding E fact) (pt_vector pt)) = true.
Proof.
  unfold AgenticMemory.findSimilarMemories, bind.
  destruct (AgenticMemory.findSimilarMemories_loop E facts user [] w)
    as [[ms|e] w1] eqn:Hloop; [|done].
  intros [= <- <-].
  apply findSimilarMemories_loop_returns in Hloop as (-> & _ & _). simpl.
  split.
  - etrans; [apply sublist_length, filter_from_sublist|].
    apply neighbours_length.
  - intros m Hm. apply filter_from_subset, elem_of_concat in Hm
      as (l & Hm & Hl).
    apply list_elem_of_fmap in Hl as (fact & -> & Hfact).
    apply list_elem_of_fmap in Hm as (r & -> & Hr).
    apply qdrant_search_spec in Hr as (pt & Hlook & Hrec & Hown & Hscore).
    exists pt, fact. simpl. split_and!; [done| |done..].
    unfold memory_of. by rewrite <- Hrec.
Qed.

Lemma candidates_are_the_users_and_bounded_witness :
  let E := Sample.env [] [] Sample.never in
  let facts := ["likes tea"; "likes coffee"] in
  let candidates :=
    returned (AgenticMemory.findSimilarMemories E facts "alice"
                (Sample.world Sample.both)).1 in
  (length candidates ≤ 10)%nat
  ∧ ∀ m, m ∈ candidates →
         ∃ pt fact,
           Sample.both !! mem_id m = Some pt
           ∧ m = memory_of (mem_id m) pt
           ∧ owner pt = "alice"
           ∧ fact ∈ facts
           ∧ Qle_bool (5 # 10)%Q
               (score E (embedding E fact) (pt_vector pt)) = true.
Proof.
  intros E facts candidates.
  apply (candidates_are_the_users_and_bounded E facts "alice"
           (Sample.world Sample.both)
           (AgenticMemory.findSimilarMemories E facts "alice"
              (Sample.world Sample.both)).2 candidates).
  vm_compute. reflexivity.
Defined.

(** ** [add] when nothing is to be changed *)

(** X17: When every action the model can answer is UNCHANGED, or an UPDATE
    or DELETE without identifier, [add] changes nothing but the log of
    requests, whether it returns or raises: the collection is the
    same, and neither the clock nor the UUID source was consulted, so
    no timestamp moves. *)
Theorem add_of_unchanged_facts_changes_nothing (E : Env) (input : string)
    (context : MemoryMetadata) (w w' : World) (r : Res unit) :
  (∀ memories facts,
     Forall (λ a, mutating a = false) (llm_actions E memories facts)) →
  AgenticMemory.add E input context w = (r, w') →
  store w' = store w ∧ ticks w' = ticks w ∧ uuids w' = uuids w.
Proof.
  intros Hquiet. unfold AgenticMemory.add. unfold bind at 1.
  destruct (AgenticMemory.extractFacts E input w) as [[facts|e1] w1] eqn:H1;
    apply read_only_extractFacts in H1 as (Hs1 & Ht1 & Hu1 & _);
    [|by intros [= <- <-]].
  unfold bind at 1.
  destruct (AgenticMemory.embedFacts E facts ∅ w1) as [[fe|e2] w2] eqn:H2;
    apply read_only_embedFacts in H2 as (Hs2 & Ht2 & Hu2 & _);
    [|intros [= <- <-]; split_and!; congruence].
  unfold bind at 1.
  destruct (AgenticMemory.findSimilarMemories E facts (userId context) w2)
    as [[old|e3] w3] eqn:H3;
    apply read_only_findSimilarMemories in H3 as (Hs3 & Ht3 & Hu3 & _);
    [|intros [= <- <-]; split_and!; congruence].
  unfold bind at 1. rewrite generateConsolidationActions_eq.
  destruct (fails E _ _); [intros [= <- <-]; simpl; split_and!; congruence|].
  rewrite applyMemoryActions_skip by apply Hquiet.
  intros [= <- <-]. simpl. split_and!; congruence.
Qed.

Lemma add_of_unchanged_facts_changes_nothing_witness :
  let E := Sample.env ["likes tea"]
             [Sample.action UNCHANGED (Some "m2") "likes tea"] Sample.never in
  let w' := (AgenticMemory.add E "hello" Sample.alice
               (Sample.world Sample.both)).2 in
  store w' = Sample.both ∧ ticks w' = 0%nat ∧ uuids w' = 0%nat.
Proof.
  intros E w'.
  apply (add_of_unchanged_facts_changes_nothing E "hello" Sample.alice
           (Sample.world Sample.both) w' (Ok tt)).
  - intros memories facts. repeat constructor.
  - vm_compute. reflexivity.
Defined.

(** ** Vectors of the memories [add] creates *)

Section Embedded.
Context (E : Env).

Lemma embedFacts_holds_embeddings (facts : list string)
    (fe fe' : gmap string Vector) (w w' : World) :
  AgenticMemory.embedFacts E facts fe w = (Ok fe', w') →
  holds_embeddings E fe → holds_embeddings E fe'.
Proof.
  revert fe w. induction facts as [|fact facts IH]; intros fe w;
    cbn [AgenticMemory.embedFacts].
  { by intros [= <- <-]. }
  unfold bind at 1. rewrite embedQuery_eq.
  destruct (fails E _ _); [done|]. intros Hrun Hfe.
  apply IH in Hrun; [done|].
  intros text v [[<- <-]|[_ Hv]]%lookup_insert_Some; [done|by apply Hfe].
Qed.

Lemma applyMemoryAction_embeds (a : MemoryAction) (fe : gmap string Vector)
    (context : MemoryMetadata) (w w' : World) (r : Res unit) :
  holds_embeddings E fe →
  AgenticMemory.applyMemoryAction E a fe context w = (r, w') →
  ∃ evs, trace w' = trace w ++ evs ∧ Forall (embeds_its_content E) evs.
Proof.
  intros Hfe. unfold AgenticMemory.applyMemoryAction.
  destruct (act_type a).
  - unfold bind, Date_now.
    destruct (fe !! act_text a) as [v|] eqn:Hv.
    + apply Hfe in Hv as ->. rewrite addMemory_vector_eq. simpl.
      destruct (fails E _ _); intros [= <- <-]; simpl;
        eexists; (split; [reflexivity|]); by repeat constructor.
    + rewrite addMemory_embed_eq. simpl.
      destruct (fails E _ _);
        [intros [= <- <-]; simpl; rewrite app_nil_r; eexists;
         (split; [reflexivity|]); by repeat constructor|].
      destruct (fails E _ _); intros [= <- <-]; simpl; rewrite <- app_assoc;
        eexists; (split; [reflexivity|]); by repeat constructor.
  - destruct (truthy (act_id a));
      [|intros [= <- <-]; exists []; by rewrite app_nil_r].
    unfold MemoryStorage.updateMemory, try_catch, bind, Date_now.
    cbn [AgenticMemory.content_update upd_content upd_metadata truthy].
    destruct (bool_decide (act_text a = "")); cbn [negb].
    + unfold ret. rewrite setPayload_eq. simpl.
      destruct (fails E _ _); intros [= <- <-]; simpl;
        eexists; (split; [reflexivity|]); by repeat constructor.
    + rewrite embedQuery_eq.
      destruct (fails E _ _);
        [intros [= <- <-]; simpl; eexists; (split; [reflexivity|]);
         by repeat constructor|].
      unfold ret. rewrite setPayload_eq. simpl.
      destruct (fails E _ _); intros [= <- <-]; simpl; rewrite <- app_assoc;
        eexists; (split; [reflexivity|]); by repeat constructor.
  - destruct (truthy (act_id a));
      [|intros [= <- <-]; exists []; by rewrite app_nil_r].
    rewrite deleteMemory_eq.
    destruct (fails E _ _); intros [= <- <-]; simpl;
      eexists; (split; [reflexivity|]); by repeat constructor.
  - intros [= <- <-]. exists []. by rewrite app_nil_r.
Qed.

Lemma applyMemoryActions_embeds (actions : list MemoryAction)
    (fe : gmap string Vector) (context : MemoryMetadata) (w w' : World)
    (r : Res unit) :
  holds_embeddings E fe →
  AgenticMemory.applyMemoryActions E actions fe context w = (r, w') →
  ∃ evs, trace w' = trace w ++ evs ∧ Forall (embeds_its_content E) evs.
Proof.
  intros Hfe. revert w. induction actions as [|a actions IH]; intros w; simpl.
  { intros [= <- <-]. exists []. by rewrite app_nil_r. }
  unfold bind at 1.
  destruct (AgenticMemory.applyMemoryAction E a fe context w)
    as [[[]|e1] w1] eqn:Hpass;
    apply applyMemoryAction_embeds in Hpass as (evs1 & He1 & Hf1); try done.
  - intros Hrest. apply IH in Hrest as (evs2 & He2 & Hf2).
    exists (evs1 ++ evs2). rewrite He2, He1, app_assoc.
    split; [done|]. by apply Forall_app.
  - intros [= <- <-]. by exists evs1.
Qed.

Lemma read_only_embeds {A} (m : M A) (w w' : World) (r : Res A) :
  read_only m → m w = (r, w') →
  ∃ evs, trace w' = trace w ++ evs ∧ Forall (embeds_its_content E) evs.
Proof.
  intros Hm Hrun. apply Hm in Hrun as (_ & _ & _ & evs & He & Hf).
  exists evs. split; [done|]. eapply Forall_impl; [exact Hf|].
  by intros [].
Qed.

End Embedded.

(** X18: Every memory [add] creates is indexed under the embedding of its
    own content: each upsert issued during [add], whether the call
    returns or raises, carries as vector the embedding of the content
    in its payload, be it the vector [add] precomputed or the one
    [addMemory] computed itself. *)
Theorem add_indexes_created_memories_by_their_content (E : Env)
    (input : string) (context : MemoryMetadata) (w : World) :
  Forall (embeds_its_content E)
    (events_of (AgenticMemory.add E input context) w).
Proof.
  unfold events_of.
  destruct (AgenticMemory.add E input context w) as [r w'] eqn:Hrun. simpl.
  assert (∃ evs, trace w' = trace w ++ evs
                 ∧ Forall (embeds_its_content E) evs) as (evs & -> & Hevs);
    [|by rewrite drop_app_length].
  revert Hrun. unfold AgenticMemory.add. unfold bind at 1.
  destruct (AgenticMemory.extractFacts E input w) as [[facts|e1] w1] eqn:H1;
    apply (read_only_embeds E _ _ _ _ (read_only_extractFacts E input)) in H1
      as (evs1 & He1 & Hf1); [|intros [= <- <-]; by exists evs1].
  unfold bind at 1.
  destruct (AgenticMemory.embedFacts E facts ∅ w1) as [[fe|e2] w2] eqn:H2.
  2:{ apply (read_only_embeds E _ _ _ _ (read_only_embedFacts E facts ∅)) in H2
        as (evs2 & He2 & Hf2).
      intros [= <- <-]. exists (evs1 ++ evs2).
      rewrite He2, He1, app_assoc. split; [done|]. by apply Forall_app. }
  pose proof (embedFacts_holds_embeddings E _ _ _ _ _ H2) as Hfe.
  apply (read_only_embeds E _ _ _ _ (read_only_embedFacts E facts ∅)) in H2
    as (evs2 & He2 & Hf2).
  unfold bind at 1.
  destruct (AgenticMemory.findSimilarMemories E facts (userId context) w2)
    as [[old|e3] w3] eqn:H3;
    apply (read_only_embeds E _ _ _ _
             (read_only_findSimilarMemories E facts (userId context))) in H3
      as (evs3 & He3 & Hf3).
  2:{ intros [= <- <-]. exists (evs1 ++ evs2 ++ evs3).
      rewrite He3, He2, He1, <- !app_assoc. split; [done|].
      rewrite !Forall_app. by split_and!. }
  unfold bind at 1.
  destruct (AgenticMemory.generateConsolidationActions E old facts w3)
    as [[actions|e4] w4] eqn:H4;
    apply (read_only_embeds E _ _ _ _
             (read_only_generateConsolidationActions E old facts)) in H4
      as (evs4 & He4 & Hf4).
  2:{ intros [= <- <-]. exists (evs1 ++ evs2 ++ evs3 ++ evs4).
      rewrite He4, He3, He2, He1, <- !app_assoc. split; [done|].
      rewrite !Forall_app. by split_and!. }
  intros Happly.
  apply applyMemoryActions_embeds in Happly as (evs5 & He5 & Hf5).
  2:{ apply Hfe. intros text v Hv. by rewrite lookup_empty in Hv. }
  exists (evs1 ++ evs2 ++ evs3 ++ evs4 ++ evs5).
  rewrite He5, He4, He3, He2, He1, <- !app_assoc. split; [done|].
  rewrite !Forall_app. by split_and!.
Qed.

(** ** Collections *)

Section AdminFacts.
Import Admin.
Context (refuses : list Request → Request → bool).

Lemma exists_collection (cs : gmap string Collection) (name : string) :
  existsb (λ col, bool_decide (col = name)) (map_to_list cs).*1
  = bool_decide (is_Some (cs !! name)).
Proof.
  apply eq_true_iff_eq. rewrite existsb_exists, bool_decide_eq_true. split.
  - intros (col & Hin & Hcol). apply bool_decide_eq_true in Hcol as ->.
    apply list_elem_of_In, list_elem_of_fmap in Hin as ([i x] & -> & Hix).
    apply elem_of_map_to_list in Hix. by exists x.
  - intros [x Hx]. exists name. split; [|by apply bool_decide_eq_true].
    apply list_elem_of_In, list_elem_of_fmap. exists (name, x).
    split; [done|]. by apply elem_of_map_to_list.
Qed.

Lemma getCollections_eq (c : Cluster) :
  getCollections refuses c =
    (if refuses (requests c) GetCollections
     then Raised (Refused GetCollections)
     else Done (map_to_list (collections c)).*1,
     logged GetCollections c).
Proof.
  unfold getCollections, bind, send.
  by destruct (refuses (requests c) GetCollections).
Qed.

(** [createIndexes] never raises; it creates the wanted indexes in
    order up to the first request that is refused. *)
Lemma createIndexes_prefix (name : string) (col : Collection) (c : Cluster) :
  collections c !! name = Some col →
  ∃ c' idx,
    createIndexes refuses name c = (Done tt, c')
    ∧ idx `prefix_of` wanted_indexes
    ∧ ((∀ h rq, refuses h rq = false) → idx = wanted_indexes)
    ∧ collections c' =
        <[name := {| vector_size := vector_size col; distance := distance col;
                     payload_indexes := payload_indexes col ++ idx;
                     points := points col |}]> (collections c).
Proof.
  intros Hcol.
  unfold createIndexes, try_catch, bind, createPayloadIndex, send.
  destruct (refuses (requests c) _) eqn:Hr1; simpl.
  { exists (logged (CreatePayloadIndex name "metadata.userId" "keyword") c), [].
    split_and!; [done|apply prefix_nil|..].
    - intros Hall. by rewrite Hall in Hr1.
    - simpl. rewrite app_nil_r. symmetry. apply insert_id.
      rewrite Hcol. by destruct col. }
  rewrite Hcol. simpl. rewrite lookup_alter_eq, Hcol. simpl.
  destruct (refuses (requests c ++ _) _) eqn:Hr2; simpl.
  { eexists _, [("metadata.userId", "keyword")].
    split_and!; [done|by eexists|..].
    - intros Hall. by rewrite Hall in Hr2.
    - simpl. apply map_eq. intros j. destruct (decide (name = j)) as [<-|Hne].
      + by rewrite lookup_alter_eq, lookup_insert_eq, Hcol.
      + by rewrite lookup_alter_ne, lookup_insert_ne. }
  rewrite !lookup_alter_eq, Hcol. simpl.
  destruct (refuses ((requests c ++ _) ++ _) _) eqn:Hr3; simpl.
  { eexists _, [("metadata.userId", "keyword");
                ("metadata.timestamp", "integer")].
    split_and!; [done|by eexists|..].
    - intros Hall. by rewrite Hall in Hr3.
    - simpl. apply map_eq. intros j. destruct (decide (name = j)) as [<-|Hne].
      + rewrite !lookup_alter_eq, lookup_insert_eq, Hcol. simpl.
        unfold add_index. simpl. by rewrite <- app_assoc.
      + by rewrite !lookup_alter_ne, lookup_insert_ne. }
  eexists _, wanted_indexes. split_and!; [done..|].
  simpl. apply map_eq. intros j. destruct (decide (name = j)) as [<-|Hne].
  - rewrite !lookup_alter_eq, lookup_insert_eq, Hcol. simpl.
    unfold add_index. simpl. by rewrite <- !app_assoc.
  - by rewrite !lookup_alter_ne, lookup_insert_ne.
Qed.

Lemma initialize_existing (config : MemoryStorageConfig) (c : Cluster) :
  is_Some (collections c !! collection_of config) →
  refuses (requests c) GetCollections = false →
  initialize refuses config c = (Done tt, logged GetCollections c).
Proof.
  intros Hsome Hget. unfold initialize, try_catch, bind.
  rewrite getCollections_eq, Hget. simpl.
  change (collections (logged GetCollections c)) with (collections c).
  by rewrite exists_collection, bool_decide_eq_true_2.
Qed.

Lemma initialize_done_exists (config : MemoryStorageConfig) (c c' : Cluster) :
  initialize refuses config c = (Done tt, c') →
  is_Some (collections c' !! collection_of config).
Proof.
  unfold initialize, try_catch, bind. rewrite getCollections_eq.
  destruct (refuses (requests c) GetCollections); [done|]. simpl.
  rewrite exists_collection.
  destruct (bool_decide (is_Some (collections c !! collection_of config)))
    eqn:Hex; simpl.
  { intros [= <-]. by apply bool_decide_eq_true in Hex. }
  apply bool_decide_eq_false in Hex.
  unfold createCollection, send.
  destruct (refuses _ _); [done|]. simpl.
  destruct (collections c !! collection_of config) eqn:Hnone;
    [by destruct Hex|]. simpl.
  match goal with
  | |- context [createIndexes refuses ?n ?c1] =>
      destruct (createIndexes_prefix n
                  {| vector_size := 1536; distance := "Cosine";
                     payload_indexes := []; points := ∅ |} c1)
        as (c2 & idx & -> & _ & _ & Hcs); [by simpl; rewrite lookup_insert_eq|]
  end.
  intros [= <-]. rewrite Hcs, lookup_insert_eq. by eexists.
Qed.

End AdminFacts.

Lemma filter_none {A} (P : A → Prop) `{!∀ x, Decision (P x)} (l : list A) :
  Forall (λ x, ¬ P x) l → filter P l = [].
Proof.
  induction 1 as [|x l Hx _ IH]; [done|].
  by rewrite filter_cons, decide_False.
Qed.

(** X19: [initialize] never touches a collection that exists: when the
    collection of the configuration is there and the listing request
    is answered, it returns after that single request, and every
    collection (its points, its parameters, its indexes) is as
    before. *)
Theorem initialize_keeps_existing_collection
    (refuses : list Admin.Request → Admin.Request → bool)
    (config : Admin.MemoryStorageConfig) (c : Admin.Cluster) :
  is_Some (Admin.collections c !! Admin.collection_of config) →
  refuses (Admin.requests c) Admin.GetCollections = false →
  Admin.initialize refuses config c =
    (Admin.Done tt,
     {| Admin.collections := Admin.collections c;
        Admin.requests := Admin.requests c ++ [Admin.GetCollections] |}).
Proof.
  intros Hsome Hget. unfold Admin.initialize, Admin.try_catch, Admin.bind.
  rewrite getCollections_eq, Hget. simpl.
  change (Admin.collections (Admin.logged Admin.GetCollections c))
    with (Admin.collections c).
  by rewrite exists_collection, bool_decide_eq_true_2.
Qed.

Lemma initialize_keeps_existing_collection_witness :
  let col := {| Admin.vector_size := 1536; Admin.distance := "Cosine";
                Admin.payload_indexes := []; Admin.points := Sample.both |} in
  let c := {| Admin.collections := {[ "agentic_memory" := col ]};
              Admin.requests := [] |} in
  Admin.initialize Admin.answers_all Admin.default_config c =
    (Admin.Done tt,
     {| Admin.collections := {[ "agentic_memory" := col ]};
        Admin.requests := [Admin.GetCollections] |}).
Proof.
  intros col c.
  apply (initialize_keeps_existing_collection Admin.answers_all
           Admin.default_config c); [|reflexivity].
  exists col. reflexivity.
Defined.



(** X21: [initialize] is idempotent: after a run that returned, a second
    run whose listing request is answered sends that one request and
    changes no collection. *)
Theorem initialize_twice_changes_nothing
    (refuses : list Admin.Request → Admin.Request → bool)
    (config : Admin.MemoryStorageConfig) (c c1 : Admin.Cluster) :
  Admin.initialize refuses config c = (Admin.Done tt, c1) →
  refuses (Admin.requests c1) Admin.GetCollections = false →
  Admin.initialize refuses config c1 =
    (Admin.Done tt,
     {| Admin.collections := Admin.collections c1;
        Admin.requests := Admin.requests c1 ++ [Admin.GetCollections] |}).
Proof.
  intros Hfirst Hget. apply initialize_existing; [|done].
  by eapply initialize_done_exists.
Qed.

Lemma initialize_twice_changes_nothing_witness :
  let c1 := (Admin.initialize Admin.answers_all Admin.default_config
               Admin.empty_cluster).2 in
  Admin.initialize Admin.answers_all Admin.default_config c1 =
    (Admin.Done tt,
     {| Admin.collections := Admin.collections c1;
        Admin.requests := Admin.requests c1 ++ [Admin.GetCollections] |}).
Proof.
  intros c1.
  apply (initialize_twice_changes_nothing Admin.answers_all
           Admin.default_config Admin.empty_cluster c1); reflexivity.
Defined.

(** X22: [initialize] raises only when the listing request fails, or when
    the collection is missing and its creation fails; the exception
    carries the message of [initialize] around the refused request,
    and no collection has changed.  A refused index request never
    makes it raise. *)
Theorem initialize_raises_only_for_listing_or_creation
    (refuses : list Admin.Request → Admin.Request → bool)
    (config : Admin.MemoryStorageConfig) (c c' : Admin.Cluster)
    (e : Admin.Failure) :
  Admin.initialize refuses config c = (Admin.Raised e, c') →
  Admin.collections c' = Admin.collections c
  ∧ ∃ rq, e = Admin.Failed "Memory storage initialization failed"
                (Admin.Refused rq)
          ∧ (rq = Admin.GetCollections
             ∨ rq = Admin.CreateCollection (Admin.collection_of config)
                      1536 "Cosine").
Proof.
  unfold Admin.initialize, Admin.try_catch, Admin.bind.
  rewrite getCollections_eq.
  destruct (refuses (Admin.requests c) Admin.GetCollections).
  { intros [= <- <-]. split; [done|]. eexists. split; [done|by left]. }
  simpl.
  change (Admin.collections (Admin.logged Admin.GetCollections c))
    with (Admin.collections c).
  rewrite exists_collection.
  destruct (bool_decide (is_Some (Admin.collections c
                                    !! Admin.collection_of config)))
    eqn:Hex; simpl; [done|].
  apply bool_decide_eq_false in Hex.
  unfold Admin.createCollection, Admin.send. simpl.
  destruct (refuses _ _).
  { intros [= <- <-]. split; [done|]. eexists. split; [done|by right]. }
  destruct (Admin.collections c !! Admin.collection_of config) eqn:Hnone;
    [by destruct Hex|].
  match goal with
  | |- context [Admin.createIndexes refuses ?n ?c1] =>
      destruct (createIndexes_prefix refuses n
                  {| Admin.vector_size := 1536; Admin.distance := "Cosine";
                     Admin.payload_indexes := []; Admin.points := ∅ |} c1)
        as (c2 & idx & -> & _); [by simpl; rewrite lookup_insert_eq|]
  end.
  done.
Qed.

Lemma initialize_raises_only_for_listing_or_creation_witness :
  Admin.collections
    (Admin.initialize (λ _ _, true) Admin.default_config
       Admin.empty_cluster).2 = ∅
  ∧ ∃ rq, Admin.Failed "Memory storage initialization failed"
            (Admin.Refused Admin.GetCollections)
          = Admin.Failed "Memory storage initialization failed"
              (Admin.Refused rq)
          ∧ (rq = Admin.GetCollections
             ∨ rq = Admin.CreateCollection "agentic_memory" 1536 "Cosine").
Proof.
  apply (initialize_raises_only_for_listing_or_creation (λ _ _, true)
           Admin.default_config Admin.empty_cluster
           (Admin.initialize (λ _ _, true) Admin.default_config
              Admin.empty_cluster).2).
  reflexivity.
Defined.

(** X23: [deleteAllMemories] removes the memories of the given user and
    nothing else: in the collection of the configuration the points
    left are exactly the former points of other owners, unchanged; the
    collection's parameters and indexes and all other collections are
    as before; and a vector query or a range listing for that user on
    what is left finds nothing. *)
Theorem deleteAllMemories_removes_exactly_the_users
    (refuses : list Admin.Request → Admin.Request → bool)
    (config : Admin.MemoryStorageConfig) (user : string)
    (c c' : Admin.Cluster) :
  let name := Admin.collection_of config in
  Admin.deleteAllMemories refuses config user c = (Admin.Done tt, c') →
  ∃ col col',
    Admin.collections c !! name = Some col
    ∧ Admin.collections c' !! name = Some col'
    ∧ (∀ i pt, Admin.points col' !! i = Some pt
               ↔ Admin.points col !! i = Some pt ∧ owner pt ≠ user)
    ∧ Admin.vector_size col' = Admin.vector_size col
    ∧ Admin.distance col' = Admin.distance col
    ∧ Admin.payload_indexes col' = Admin.payload_indexes col
    ∧ (∀ other, other ≠ name →
                Admin.collections c' !! other = Admin.collections c !! other)
    ∧ (∀ E v limit th, qdrant_search E (Admin.points col') user v limit th = [])
    ∧ (∀ startDate endDate limit,
         qdrant_scroll (Admin.points col') user startDate endDate limit = []).
Proof.
  intros name.
  unfold Admin.deleteAllMemories, Admin.try_catch, Admin.deleteByUser,
    Admin.send. fold name.
  destruct (refuses _ _); [done|].
  destruct (Admin.collections c !! name) as [col|] eqn:Hcol; [|done].
  intros [= <-]. exists col, (Admin.without_user user col). simpl.
  assert (Hnone : ∀ (P : string * Point → bool),
    filter (λ ip, match_user user ip && P ip)
      (map_to_list (filter (λ ip, owner ip.2 ≠ user) (Admin.points col)))
    = []).
  { intros P. apply filter_none, Forall_forall. intros [i pt] Hin.
    apply elem_of_map_to_list, map_lookup_filter_Some in Hin as [_ Hown].
    intros [Hu _]%andb_prop_elim. by apply bool_decide_unpack in Hu. }
  split_and!; try done.
  - by rewrite lookup_alter_eq, Hcol.
  - intros i pt. by rewrite map_lookup_filter_Some.
  - intros other Hother. by rewrite lookup_alter_ne.
  - intros E v limit th. unfold qdrant_search. rewrite Hnone. simpl.
    by rewrite take_nil.
  - intros startDate endDate limit. unfold qdrant_scroll. rewrite Hnone.
    by rewrite take_nil.
Qed.

Lemma deleteAllMemories_removes_exactly_the_users_witness :
  let col := {| Admin.vector_size := 1536; Admin.distance := "Cosine";
                Admin.payload_indexes := Admin.wanted_indexes;
                Admin.points := Sample.both |} in
  let c := {| Admin.collections := {[ "agentic_memory" := col ]};
              Admin.requests := [] |} in
  let c' := (Admin.deleteAllMemories Admin.answers_all Admin.default_config
               "alice" c).2 in
  ∃ col0 col',
    Admin.collections c !! "agentic_memory" = Some col0
    ∧ Admin.collections c' !! "agentic_memory" = Some col'
    ∧ (∀ i pt, Admin.points col' !! i = Some pt
               ↔ Admin.points col0 !! i = Some pt ∧ owner pt ≠ "alice")
    ∧ Admin.vector_size col' = Admin.vector_size col0
    ∧ Admin.distance col' = Admin.distance col0
    ∧ Admin.payload_indexes col' = Admin.payload_indexes col0
    ∧ (∀ other, other ≠ "agentic_memory" →
                Admin.collections c' !! other = Admin.collections c !! other)
    ∧ (∀ E v limit th,
         qdrant_search E (Admin.points col') "alice" v limit th = [])
    ∧ (∀ startDate endDate limit,
         qdrant_scroll (Admin.points col') "alice" startDate endDate limit
         = []).
Proof.
  intros col c c'.
  apply (deleteAllMemories_removes_exactly_the_users Admin.answers_all
           Admin.default_config "alice" c c').
  reflexivity.
Defined.

(** X2: Whatever its outcome, [addMemory] touches no memory but the one
    under the identifier it draws: every other identifier holds what
    it held, and a run that raised has stored nothing. *)
Theorem addMemory_touches_only_its_identifier (E : Env) (memory : NewMemory)
    (w w' : World) (r : Res string) :
  MemoryStorage.addMemory E memory w = (r, w') →
  (∀ j, j ≠ uuid E (uuids w) → store w' !! j = store w !! j)
  ∧ (is_ok r = false → store w' = store w).
Proof.
  destruct memory as [[v|] content meta]; simpl.
  - rewrite addMemory_vector_eq. simpl.
    destruct (fails E _ _); intros [= <- <-]; simpl; [done|].
    split; [|done]. intros j Hj. by rewrite lookup_insert_ne.
  - rewrite addMemory_embed_eq. simpl.
    destruct (fails E _ _); [by intros [= <- <-]|].
    destruct (fails E _ _); intros [= <- <-]; simpl; [done|].
    split; [|done]. intros j Hj. by rewrite lookup_insert_ne.
Qed.

Lemma addMemory_touches_only_its_identifier_witness :
  let E := Sample.env [] [] Sample.never in
  let memory := {| new_vector := None; new_content := "likes tea";
                   new_metadata := Sample.alice |} in
  let w' := (MemoryStorage.addMemory E memory (Sample.world Sample.both)).2 in
  (∀ j, j ≠ "uuid-0" → store w' !! j = Sample.both !! j)
  ∧ (is_ok (Ok "uuid-0" : Res string) = false → store w' = Sample.both).
Proof.
  intros E memory w'.
  apply (addMemory_touches_only_its_identifier E memory
           (Sample.world Sample.both) w' (Ok "uuid-0")).
  reflexivity.
Defined.
